(** * cachelayer: a shallow embedding of the Redis cache layer

    The Go package [cachelayer] (files [jsonSerializer.go],
    [fullRedisCache.go]) and its Mongo coordinator
    ([mongoredis/redismongo.go]) are modelled here.

    - Go's [(value, error)] pairs are Rocq pairs [(A * option err)], with
      [None] for a nil error.
    - The Redis server is a record of a string key space, a hash key space
      and the log of every command the client sent; the commands never fail
      (the server is assumed reachable).
    - The codec, the Mongo driver and the SQL/Gorm backend are external
      collaborators: they are parameters (type classes) of the sections. *)

From Stdlib Require Import String Ascii List ZArith Lia.
From stdpp Require Import base gmap strings list.

Open Scope string_scope.

Definition err := string.

(** ** Strings: Go's [strings.ToLower]

    A Go string is a sequence of bytes; here a [string] of [ascii]
    characters, one per byte.  [strings.ToLower] lowercases an all-ASCII
    string byte by byte and otherwise runs [strings.Map(unicode.ToLower, s)],
    which decodes the bytes as UTF-8 ([utf8.DecodeRuneInString]), maps each
    rune and re-encodes it ([utf8.EncodeRune]). *)

Open Scope Z_scope.

Definition byte_val (c : ascii) : Z := Z.of_N (N_of_ascii c).
(** Go's [byte(z)]: the low 8 bits. *)
Definition byte (z : Z) : ascii := ascii_of_N (Z.to_N (z mod 256)).

Definition RuneError : Z := 0xFFFD.
Definition RuneSelf : Z := 0x80.
Definition MaxRune : Z := 0x10FFFF.
Definition MaxASCII : Z := 0x7F.
Definition surrogateMin : Z := 0xD800.
Definition surrogateMax : Z := 0xDFFF.
Definition t2 : Z := 0xC0.
Definition t3 : Z := 0xE0.
Definition t4 : Z := 0xF0.
Definition tx : Z := 0x80.
Definition maskx : Z := 0x3F.
Definition mask2 : Z := 0x1F.
Definition mask3 : Z := 0x0F.
Definition mask4 : Z := 0x07.
Definition rune1Max : Z := 0x7F.
Definition rune2Max : Z := 0x7FF.
Definition rune3Max : Z := 0xFFFF.
Definition locb : Z := 0x80.
Definition hicb : Z := 0xBF.

(** The [first] table of [unicode/utf8] with its [acceptRanges]: what a
    leading byte starts -- an ASCII byte, an invalid byte, or a sequence of
    [sz] bytes whose second byte must lie in [[lo, hi]]. *)
Inductive first_class :=
| FAscii
| FInvalid
| FSeq (sz : nat) (lo hi : Z).

Definition first (b : Z) : first_class :=
  if b <? 0x80 then FAscii
  else if b <? 0xC2 then FInvalid
  else if b <? 0xE0 then FSeq 2 0x80 0xBF
  else if b =? 0xE0 then FSeq 3 0xA0 0xBF
  else if b <? 0xED then FSeq 3 0x80 0xBF
  else if b =? 0xED then FSeq 3 0x80 0x9F
  else if b <? 0xF0 then FSeq 3 0x80 0xBF
  else if b =? 0xF0 then FSeq 4 0x90 0xBF
  else if b <? 0xF4 then FSeq 4 0x80 0xBF
  else if b =? 0xF4 then FSeq 4 0x80 0x8F
  else FInvalid.

(** [utf8.DecodeRuneInString]: the first rune and its width.  A sequence
    cut short by the end of the string gives [(RuneError, 1)], as Go's
    [n < sz] check does. *)
Definition DecodeRuneInString (s : string) : Z * nat :=
  match s with
  | EmptyString => (RuneError, 0%nat)
  | String c0 s1' =>
      let s0 := byte_val c0 in
      match first s0 with
      | FAscii => (s0, 1%nat)
      | FInvalid => (RuneError, 1%nat)
      | FSeq sz lo hi =>
          match s1' with
          | EmptyString => (RuneError, 1%nat)
          | String c1 s2' =>
              let s1 := byte_val c1 in
              if (s1 <? lo) || (hi <? s1) then (RuneError, 1%nat)
              else if (sz <=? 2)%nat then
                (Z.lor (Z.shiftl (Z.land s0 mask2) 6) (Z.land s1 maskx), 2%nat)
              else
                match s2' with
                | EmptyString => (RuneError, 1%nat)
                | String c2 s3' =>
                    let s2 := byte_val c2 in
                    if (s2 <? locb) || (hicb <? s2) then (RuneError, 1%nat)
                    else if (sz <=? 3)%nat then
                      (Z.lor (Z.lor (Z.shiftl (Z.land s0 mask3) 12)
                                    (Z.shiftl (Z.land s1 maskx) 6))
                             (Z.land s2 maskx), 3%nat)
                    else
                      match s3' with
                      | EmptyString => (RuneError, 1%nat)
                      | String c3 _ =>
                          let s3 := byte_val c3 in
                          if (s3 <? locb) || (hicb <? s3) then (RuneError, 1%nat)
                          else
                            (Z.lor (Z.lor (Z.lor (Z.shiftl (Z.land s0 mask4) 18)
                                                 (Z.shiftl (Z.land s1 maskx) 12))
                                          (Z.shiftl (Z.land s2 maskx) 6))
                                   (Z.land s3 maskx), 4%nat)
                      end
                end
          end
      end
  end.

(** [utf8.EncodeRune] (what [Builder.WriteRune] appends); a negative rune
    is [uint32]-converted above [MaxRune], so it becomes [RuneError]. *)
Definition EncodeRune (r : Z) : string :=
  if (0 <=? r) && (r <=? rune1Max) then String (byte r) EmptyString
  else if (0 <=? r) && (r <=? rune2Max) then
    String (byte (Z.lor t2 (Z.shiftr r 6)))
      (String (byte (Z.lor tx (Z.land r maskx))) EmptyString)
  else
    let r := if (r <? 0) || (MaxRune <? r) || ((surrogateMin <=? r) && (r <=? surrogateMax))
             then RuneError else r in
    if r <=? rune3Max then
      String (byte (Z.lor t3 (Z.shiftr r 12)))
        (String (byte (Z.lor tx (Z.land (Z.shiftr r 6) maskx)))
          (String (byte (Z.lor tx (Z.land r maskx))) EmptyString))
    else
      String (byte (Z.lor t4 (Z.shiftr r 18)))
        (String (byte (Z.lor tx (Z.land (Z.shiftr r 12) maskx)))
          (String (byte (Z.lor tx (Z.land (Z.shiftr r 6) maskx)))
            (String (byte (Z.lor tx (Z.land r maskx))) EmptyString))).

(** [s[:n]] and [s[n:]]. *)
Fixpoint str_take (n : nat) (s : string) : string :=
  match n, s with
  | S n, String c r => String c (str_take n r)
  | _, _ => EmptyString
  end.

Fixpoint str_drop (n : nat) (s : string) : string :=
  match n, s with
  | S n, String _ r => str_drop n r
  | _, _ => s
  end.

(** [strings.Map(mapping, s)], rune by rune: a rune the mapping leaves
    unchanged keeps its bytes, unless it is the [RuneError] of an invalid
    byte, which is replaced by the encoding of [RuneError]; any other rune
    is written encoded, and a negative result is dropped.  (Once Go's [Map]
    has seen a first change it writes every later rune encoded; for an
    unchanged, validly encoded rune those are its own bytes,
    [decode_valid_bytes] below.)  The fuel is the length of the string:
    each step consumes at least one byte. *)
Fixpoint map_fuel (mapping : Z -> Z) (fuel : nat) (s : string) : string :=
  match fuel with
  | O => EmptyString
  | S fuel =>
      match s with
      | EmptyString => EmptyString
      | _ =>
          let '(c, width) := DecodeRuneInString s in
          let r := mapping c in
          let piece :=
            if (r =? c) && negb ((c =? RuneError) && (width =? 1)%nat)
            then str_take width s
            else if 0 <=? r then EncodeRune r else EmptyString in
          piece ++ map_fuel mapping fuel (str_drop width s)
      end
  end.

Definition strings_Map (mapping : Z -> Z) (s : string) : string :=
  map_fuel mapping (String.length s) s.

(** [unicode.ToLower]: ASCII directly, other runes through the lower-case
    column of [unicode.CaseRanges].  A range either adds a fixed delta to
    each of its runes, or is an [UpperLower] sequence of alternating
    upper/lower pairs, where [Lo + ((r - Lo) &^ 1 | 1)] is the lower case.
    The table below holds the ranges with a non-zero lower-case mapping;
    it is the simple lower-case mapping of the Unicode Character Database,
    version 14.0.0. *)
Inductive lower_delta :=
| LDelta (d : Z)
| UpperLower.

Record CaseRange := CR { cr_lo : Z; cr_hi : Z; cr_delta : lower_delta }.

Definition CaseRanges : list CaseRange := [
  CR 0xC0 0xD6 (LDelta (32)); CR 0xD8 0xDE (LDelta (32)); CR 0x100 0x12F UpperLower;
  CR 0x130 0x130 (LDelta (-199)); CR 0x132 0x137 UpperLower; CR 0x139 0x148 UpperLower;
  CR 0x14A 0x177 UpperLower; CR 0x178 0x178 (LDelta (-121)); CR 0x179 0x17E UpperLower;
  CR 0x181 0x181 (LDelta (210)); CR 0x182 0x185 UpperLower; CR 0x186 0x186 (LDelta (206));
  CR 0x187 0x187 (LDelta (1)); CR 0x189 0x18A (LDelta (205)); CR 0x18B 0x18B (LDelta (1));
  CR 0x18E 0x18E (LDelta (79)); CR 0x18F 0x18F (LDelta (202)); CR 0x190 0x190 (LDelta (203));
  CR 0x191 0x191 (LDelta (1)); CR 0x193 0x193 (LDelta (205)); CR 0x194 0x194 (LDelta (207));
  CR 0x196 0x196 (LDelta (211)); CR 0x197 0x197 (LDelta (209)); CR 0x198 0x198 (LDelta (1));
  CR 0x19C 0x19C (LDelta (211)); CR 0x19D 0x19D (LDelta (213)); CR 0x19F 0x19F (LDelta (214));
  CR 0x1A0 0x1A5 UpperLower; CR 0x1A6 0x1A6 (LDelta (218)); CR 0x1A7 0x1A7 (LDelta (1));
  CR 0x1A9 0x1A9 (LDelta (218)); CR 0x1AC 0x1AC (LDelta (1)); CR 0x1AE 0x1AE (LDelta (218));
  CR 0x1AF 0x1AF (LDelta (1)); CR 0x1B1 0x1B2 (LDelta (217)); CR 0x1B3 0x1B6 UpperLower;
  CR 0x1B7 0x1B7 (LDelta (219)); CR 0x1B8 0x1B8 (LDelta (1)); CR 0x1BC 0x1BC (LDelta (1));
  CR 0x1C4 0x1C4 (LDelta (2)); CR 0x1C5 0x1C5 (LDelta (1)); CR 0x1C7 0x1C7 (LDelta (2));
  CR 0x1C8 0x1C8 (LDelta (1)); CR 0x1CA 0x1CA (LDelta (2)); CR 0x1CB 0x1DC UpperLower;
  CR 0x1DE 0x1EF UpperLower; CR 0x1F1 0x1F1 (LDelta (2)); CR 0x1F2 0x1F5 UpperLower;
  CR 0x1F6 0x1F6 (LDelta (-97)); CR 0x1F7 0x1F7 (LDelta (-56)); CR 0x1F8 0x21F UpperLower;
  CR 0x220 0x220 (LDelta (-130)); CR 0x222 0x233 UpperLower; CR 0x23A 0x23A (LDelta (10795));
  CR 0x23B 0x23B (LDelta (1)); CR 0x23D 0x23D (LDelta (-163)); CR 0x23E 0x23E (LDelta (10792));
  CR 0x241 0x241 (LDelta (1)); CR 0x243 0x243 (LDelta (-195)); CR 0x244 0x244 (LDelta (69));
  CR 0x245 0x245 (LDelta (71)); CR 0x246 0x24F UpperLower; CR 0x370 0x373 UpperLower;
  CR 0x376 0x376 (LDelta (1)); CR 0x37F 0x37F (LDelta (116)); CR 0x386 0x386 (LDelta (38));
  CR 0x388 0x38A (LDelta (37)); CR 0x38C 0x38C (LDelta (64)); CR 0x38E 0x38F (LDelta (63));
  CR 0x391 0x3A1 (LDelta (32)); CR 0x3A3 0x3AB (LDelta (32)); CR 0x3CF 0x3CF (LDelta (8));
  CR 0x3D8 0x3EF UpperLower; CR 0x3F4 0x3F4 (LDelta (-60)); CR 0x3F7 0x3F7 (LDelta (1));
  CR 0x3F9 0x3F9 (LDelta (-7)); CR 0x3FA 0x3FA (LDelta (1)); CR 0x3FD 0x3FF (LDelta (-130));
  CR 0x400 0x40F (LDelta (80)); CR 0x410 0x42F (LDelta (32)); CR 0x460 0x481 UpperLower;
  CR 0x48A 0x4BF UpperLower; CR 0x4C0 0x4C0 (LDelta (15)); CR 0x4C1 0x4CE UpperLower;
  CR 0x4D0 0x52F UpperLower; CR 0x531 0x556 (LDelta (48)); CR 0x10A0 0x10C5 (LDelta (7264));
  CR 0x10C7 0x10C7 (LDelta (7264)); CR 0x10CD 0x10CD (LDelta (7264)); CR 0x13A0 0x13EF (LDelta (38864));
  CR 0x13F0 0x13F5 (LDelta (8)); CR 0x1C90 0x1CBA (LDelta (-3008)); CR 0x1CBD 0x1CBF (LDelta (-3008));
  CR 0x1E00 0x1E95 UpperLower; CR 0x1E9E 0x1E9E (LDelta (-7615)); CR 0x1EA0 0x1EFF UpperLower;
  CR 0x1F08 0x1F0F (LDelta (-8)); CR 0x1F18 0x1F1D (LDelta (-8)); CR 0x1F28 0x1F2F (LDelta (-8));
  CR 0x1F38 0x1F3F (LDelta (-8)); CR 0x1F48 0x1F4D (LDelta (-8)); CR 0x1F59 0x1F59 (LDelta (-8));
  CR 0x1F5B 0x1F5B (LDelta (-8)); CR 0x1F5D 0x1F5D (LDelta (-8)); CR 0x1F5F 0x1F5F (LDelta (-8));
  CR 0x1F68 0x1F6F (LDelta (-8)); CR 0x1F88 0x1F8F (LDelta (-8)); CR 0x1F98 0x1F9F (LDelta (-8));
  CR 0x1FA8 0x1FAF (LDelta (-8)); CR 0x1FB8 0x1FB9 (LDelta (-8)); CR 0x1FBA 0x1FBB (LDelta (-74));
  CR 0x1FBC 0x1FBC (LDelta (-9)); CR 0x1FC8 0x1FCB (LDelta (-86)); CR 0x1FCC 0x1FCC (LDelta (-9));
  CR 0x1FD8 0x1FD9 (LDelta (-8)); CR 0x1FDA 0x1FDB (LDelta (-100)); CR 0x1FE8 0x1FE9 (LDelta (-8));
  CR 0x1FEA 0x1FEB (LDelta (-112)); CR 0x1FEC 0x1FEC (LDelta (-7)); CR 0x1FF8 0x1FF9 (LDelta (-128));
  CR 0x1FFA 0x1FFB (LDelta (-126)); CR 0x1FFC 0x1FFC (LDelta (-9)); CR 0x2126 0x2126 (LDelta (-7517));
  CR 0x212A 0x212A (LDelta (-8383)); CR 0x212B 0x212B (LDelta (-8262)); CR 0x2132 0x2132 (LDelta (28));
  CR 0x2160 0x216F (LDelta (16)); CR 0x2183 0x2183 (LDelta (1)); CR 0x24B6 0x24CF (LDelta (26));
  CR 0x2C00 0x2C2F (LDelta (48)); CR 0x2C60 0x2C60 (LDelta (1)); CR 0x2C62 0x2C62 (LDelta (-10743));
  CR 0x2C63 0x2C63 (LDelta (-3814)); CR 0x2C64 0x2C64 (LDelta (-10727)); CR 0x2C67 0x2C6C UpperLower;
  CR 0x2C6D 0x2C6D (LDelta (-10780)); CR 0x2C6E 0x2C6E (LDelta (-10749)); CR 0x2C6F 0x2C6F (LDelta (-10783));
  CR 0x2C70 0x2C70 (LDelta (-10782)); CR 0x2C72 0x2C72 (LDelta (1)); CR 0x2C75 0x2C75 (LDelta (1));
  CR 0x2C7E 0x2C7F (LDelta (-10815)); CR 0x2C80 0x2CE3 UpperLower; CR 0x2CEB 0x2CEE UpperLower;
  CR 0x2CF2 0x2CF2 (LDelta (1)); CR 0xA640 0xA66D UpperLower; CR 0xA680 0xA69B UpperLower;
  CR 0xA722 0xA72F UpperLower; CR 0xA732 0xA76F UpperLower; CR 0xA779 0xA77C UpperLower;
  CR 0xA77D 0xA77D (LDelta (-35332)); CR 0xA77E 0xA787 UpperLower; CR 0xA78B 0xA78B (LDelta (1));
  CR 0xA78D 0xA78D (LDelta (-42280)); CR 0xA790 0xA793 UpperLower; CR 0xA796 0xA7A9 UpperLower;
  CR 0xA7AA 0xA7AA (LDelta (-42308)); CR 0xA7AB 0xA7AB (LDelta (-42319)); CR 0xA7AC 0xA7AC (LDelta (-42315));
  CR 0xA7AD 0xA7AD (LDelta (-42305)); CR 0xA7AE 0xA7AE (LDelta (-42308)); CR 0xA7B0 0xA7B0 (LDelta (-42258));
  CR 0xA7B1 0xA7B1 (LDelta (-42282)); CR 0xA7B2 0xA7B2 (LDelta (-42261)); CR 0xA7B3 0xA7B3 (LDelta (928));
  CR 0xA7B4 0xA7C3 UpperLower; CR 0xA7C4 0xA7C4 (LDelta (-48)); CR 0xA7C5 0xA7C5 (LDelta (-42307));
  CR 0xA7C6 0xA7C6 (LDelta (-35384)); CR 0xA7C7 0xA7CA UpperLower; CR 0xA7D0 0xA7D0 (LDelta (1));
  CR 0xA7D6 0xA7D9 UpperLower; CR 0xA7F5 0xA7F5 (LDelta (1)); CR 0xFF21 0xFF3A (LDelta (32));
  CR 0x10400 0x10427 (LDelta (40)); CR 0x104B0 0x104D3 (LDelta (40)); CR 0x10570 0x1057A (LDelta (39));
  CR 0x1057C 0x1058A (LDelta (39)); CR 0x1058C 0x10592 (LDelta (39)); CR 0x10594 0x10595 (LDelta (39));
  CR 0x10C80 0x10CB2 (LDelta (64)); CR 0x118A0 0x118BF (LDelta (32)); CR 0x16E40 0x16E5F (LDelta (32));
  CR 0x1E900 0x1E921 (LDelta (34))
].

Fixpoint find_range (r : Z) (l : list CaseRange) : option CaseRange :=
  match l with
  | [] => None
  | cr :: l => if (cr_lo cr <=? r) && (r <=? cr_hi cr) then Some cr else find_range r l
  end.

Definition lower_in (cr : CaseRange) (r : Z) : Z :=
  match cr_delta cr with
  | UpperLower => cr_lo cr + Z.lor (Z.ldiff (r - cr_lo cr) 1) 1
  | LDelta d => r + d
  end.

Definition unicode_ToLower (r : Z) : Z :=
  if r <=? MaxASCII then
    if (65 <=? r) && (r <=? 90) then r + 32 else r
  else
    match find_range r CaseRanges with
    | Some cr => lower_in cr r
    | None => r
    end.

(** The ASCII path of [strings.ToLower]. *)
Definition lower_ascii (c : ascii) : ascii :=
  let b := byte_val c in
  if (65 <=? b) && (b <=? 90) then byte (b + 32) else c.

Fixpoint ToLowerASCII (s : string) : string :=
  match s with
  | EmptyString => EmptyString
  | String c r => String (lower_ascii c) (ToLowerASCII r)
  end.

Fixpoint isASCII (s : string) : bool :=
  match s with
  | EmptyString => true
  | String c r => (byte_val c <? RuneSelf) && isASCII r
  end.

Fixpoint hasUpper (s : string) : bool :=
  match s with
  | EmptyString => false
  | String c r => ((65 <=? byte_val c) && (byte_val c <=? 90)) || hasUpper r
  end.

Definition ToLower (s : string) : string :=
  if isASCII s then
    if negb (hasUpper s) then s else ToLowerASCII s
  else strings_Map unicode_ToLower s.

(** ** Runes *)

Definition valid_rune (r : Z) : Prop :=
  0 <= r <= MaxRune /\ ~ (surrogateMin <= r <= surrogateMax).

(** Whether a string is empty or starts with an ASCII byte: decoding never
    reads across such a boundary. *)
Definition ascii_start (s : string) : Prop :=
  match s with
  | EmptyString => True
  | String c _ => byte_val c < 0x80
  end.

(** The runes of a string, as [for _, c := range s] yields them. *)
Fixpoint runes_fuel (fuel : nat) (s : string) : list Z :=
  match fuel with
  | O => []
  | S fuel =>
      match s with
      | EmptyString => []
      | _ => let '(c, width) := DecodeRuneInString s in
             c :: runes_fuel fuel (str_drop width s)
      end
  end.

Definition runes (s : string) : list Z := runes_fuel (String.length s) s.

(** Encoding a list of runes one after the other. *)
Definition enc (rs : list Z) : string :=
  fold_right (fun r acc => EncodeRune r ++ acc) EmptyString rs.

(** Checking a property of [n] consecutive runes from [lo]. *)
Fixpoint z_all (f : Z -> bool) (lo : Z) (n : nat) : bool :=
  match n with
  | O => true
  | S n => f lo && z_all f (lo + 1) n
  end.

Definition valid_b (r : Z) : bool :=
  (0 <=? r) && (r <=? MaxRune) && negb ((surrogateMin <=? r) && (r <=? surrogateMax)).

Definition lower_ok (r : Z) : bool :=
  valid_b (unicode_ToLower r)
  && (unicode_ToLower (unicode_ToLower r) =? unicode_ToLower r).

Definition range_ok (cr : CaseRange) : bool :=
  z_all lower_ok (cr_lo cr) (Z.to_nat (cr_hi cr - cr_lo cr + 1)).

Close Scope Z_scope.

(** ** The Redis server *)

Inductive cmd :=
| CGet (k : string)
| CSetEX (k v : string)
| CMSet (kvs : list (string * string))
| CExpire (k : string)
| CDel (ks : list string)
| CExists (k : string)
| CHGet (k f : string)
| CHMGet (k : string) (fs : list string)
| CHSet (k : string) (fvs : list (string * string))
| CMGet (ks : list string)
| CHDel (k : string) (fs : list string)
| CHGetAll (k : string).

Record redis := mkRedis {
  kv : gmap string string;
  hash : gmap string (gmap string string);
  rlog : list cmd
}.

Module Redis.

Definition issue (c : cmd) (r : redis) : redis :=
    mkRedis (kv r) (hash r) (rlog r ++ [c]).

  (** [GET k]: [None] is the [redis.Nil] reply. *)
Definition get (k : string) (r : redis) : redis * option string :=
    (issue (CGet k) r, kv r !! k).

Definition setex (k v : string) (r : redis) : redis :=
    mkRedis (<[k := v]> (kv r)) (hash r) (rlog r ++ [CSetEX k v]).

Definition mset (kvs : list (string * string)) (r : redis) : redis :=
    mkRedis (foldl (fun m p => <[fst p := snd p]> m) (kv r) kvs)
            (hash r) (rlog r ++ [CMSet kvs]).

  (** Expiry is passive and time is not modelled: [EXPIRE] only shows in
      the command log. *)
Definition expire (k : string) (r : redis) : redis := issue (CExpire k) r.

Definition del (ks : list string) (r : redis) : redis :=
    mkRedis (foldl (fun m k => delete k m) (kv r) ks)
            (foldl (fun m k => delete k m) (hash r) ks)
            (rlog r ++ [CDel ks]).

Definition exists_ (k : string) (r : redis) : redis * Z :=
    (issue (CExists k) r,
     match kv r !! k, hash r !! k with
     | None, None => 0%Z
     | _, _ => 1%Z
     end).

Definition hget (k f : string) (r : redis) : redis * option string :=
    (issue (CHGet k f) r, hash r !! k ≫= (fun h => h !! f)).

  (** [HMGET]: one slot per field, [None] (Go [nil]) for a missing one. *)
Definition hmget (k : string) (fs : list string) (r : redis)
      : redis * list (option string) :=
    (issue (CHMGet k fs) r,
     map (fun f => hash r !! k ≫= (fun h => h !! f)) fs).

Definition hset (k : string) (fvs : list (string * string)) (r : redis)
      : redis :=
    let h := default ∅ (hash r !! k) in
    mkRedis (kv r)
            (<[k := foldl (fun m p => <[fst p := snd p]> m) h fvs]> (hash r))
            (rlog r ++ [CHSet k fvs]).

  (** [MGET]: one slot per key, [None] (Go [nil]) for a missing one. *)
Definition mget (ks : list string) (r : redis) : redis * list (option string) :=
    (issue (CMGet ks) r, map (fun k => kv r !! k) ks).

  (** [HGETALL]: the fields of the hash, in the map's iteration order; an
      absent key is an empty hash. *)
Definition hgetall (k : string) (r : redis) : redis * list (string * string) :=
    (issue (CHGetAll k) r, map_to_list (default ∅ (hash r !! k))).

  (** [HDEL]: a hash left without fields is removed. *)
Definition hdel (k : string) (fs : list string) (r : redis) : redis :=
    let h := foldl (fun m f => delete f m) (default ∅ (hash r !! k)) fs in
    mkRedis (kv r)
            (if decide (h = ∅) then delete k (hash r) else <[k := h]> (hash r))
            (rlog r ++ [CHDel k fs]).

End Redis.

(** ** Interfaces *)

(** [Serializer]: [Unmarshal data r] decodes [data] into the variable [r]
    (Go passes [&r]) and returns its new value. *)
Class Serializer (A : Type) := {
  Marshal : A -> string * option err;
  Unmarshal : string -> A -> A * option err
}.

(** Go's zero value [var r T]. *)
Class Zero (A : Type) := zero : A.

(** ** RedisJson[T] (jsonSerializer.go) *)

Module RedisJson.
Section RedisJson.
  Context {T : Type} `{Serializer T} `{Zero T}.

Definition GetJson (key : string) (s : redis) : redis * (T * bool * option err) :=
    let r := zero in
    let '(s, y) := Redis.get key s in
    match y with
    | None => (s, (r, false, None))
    | Some y =>
        let '(r, e) := Unmarshal y r in
        (s, (r, true, e))
    end.

Definition SetJson (key : string) (obj : T) (s : redis) : redis * option err :=
    let '(y, e) := Marshal obj in
    match e with
    | Some e => (s, Some e)
    | None => (Redis.setex key y s, None)
    end.

Definition SetNull (key : string) (s : redis) : redis * option err :=
    (Redis.setex key "null" s, None).
  (** [MSetNull]: a pipeline of [SETEX key "null"]. *)
Definition MSetNull (keys : list string) (s : redis) : redis * option err :=
    match keys with
    | [] => (s, None)
    | _ => (foldl (fun s k => Redis.setex k "null" s) s keys, None)
    end.

  (** The decoding loop of [MGetJson]: slot [i] of [vs]; a [nil] slot is a
      miss holding the zero value; a decoding error returns a nil slice, the
      misses so far and the error. *)
Fixpoint mget_loop (i : nat) (vs : list (option string)) (r : list T)
      (missed : list nat) : list T * list nat * option err :=
    match vs with
    | [] => (r, missed, None)
    | None :: rest => mget_loop (S i) rest (r ++ [zero]) (missed ++ [i])
    | Some v :: rest =>
        let '(t, e) := Unmarshal v zero in
        match e with
        | Some e => ([], missed, Some e)
        | None => mget_loop (S i) rest (r ++ [t]) missed
        end
    end.

  (** [MGetJson] (its debug [Printf] is not modelled). *)
Definition MGetJson (keys : list string) (s : redis)
      : redis * (list T * list nat * option err) :=
    match keys with
    | [] => (s, ([], [], None))
    | _ =>
        let '(s, vs) := Redis.mget keys s in
        let '(r, missed, e) := mget_loop 0 vs [] [] in
        match e with
        | Some e => (s, ([], missed, Some e))
        | None => (foldl (fun s k => Redis.expire k s) s keys, (r, missed, None))
        end
    end.
End RedisJson.

Section Batch.
  Context {V : Type} `{Serializer V}.

  (** [Expires]: a pipeline of [EXPIRE]s; queued commands report no error,
      [Exec] sends them in order. *)
Definition Expires (keys : list string) (s : redis) : redis * option err :=
    match keys with
    | [] => (s, None)
    | _ => (foldl (fun s k => Redis.expire k s) s keys, None)
    end.

  (** The marshalling loop of [MSetJson] over the map [objMap], given in
      its iteration order. *)
Fixpoint marshal_all (objMap : list (string * V))
      : list (string * string) * list string * option err :=
    match objMap with
    | [] => ([], [], None)
    | (k, v) :: rest =>
        let '(y, e) := Marshal v in
        match e with
        | Some e => ([], [], Some e)
        | None =>
            let '(js, ks, e') := marshal_all rest in
            ((k, y) :: js, k :: ks, e')
        end
    end.

Definition MSetJson (objMap : list (string * V)) (s : redis)
      : redis * option err :=
    match objMap with
    | [] => (s, None)
    | _ =>
        let '(objJsonMap, keys, e) := marshal_all objMap in
        match e with
        | Some e => (s, Some e)
        | None => Expires keys (Redis.mset objJsonMap s)
        end
    end.
End Batch.
End RedisJson.

(** ** A concrete entity and codec used to evaluate the code

    [user] stands for a Go struct [{ID string; Name string}] with
    [ListIndexes] returning the single index [{name: Name}]; its codec
    writes and reads the JSON the serializer produces for it (field names
    decapitalized, no escaping needed for the test values). JSON [null]
    decodes into any struct as a no-op without error, as in Go's
    [encoding/json] and [jsoniter]. *)

Record user := mkUser { uid : string; uname : string }.

Definition dq : string := String (ascii_of_nat 34) EmptyString.
Definition quoted (s : string) : string := dq ++ s ++ dq.

Definition user_json (u : user) : string :=
  "{" ++ quoted "id" ++ ":" ++ quoted (uid u) ++ ","
      ++ quoted "name" ++ ":" ++ quoted (uname u) ++ "}".

(** Reads a string body up to the closing quote. *)
Fixpoint read_body (s : string) : option (string * string) :=
  match s with
  | EmptyString => None
  | String c r =>
      if Ascii.eqb c (ascii_of_nat 34) then Some (EmptyString, r)
      else match read_body r with
           | Some (b, rest) => Some (String c b, rest)
           | None => None
           end
  end.

Definition strip_prefix (p s : string) : option string :=
  if String.prefix p s then Some (substring (String.length p) (String.length s - String.length p) s)
  else None.

Definition parse_user (s : string) : option user :=
  s1 ← strip_prefix ("{" ++ quoted "id" ++ ":" ++ dq) s;
  '(i, s2) ← read_body s1;
  s3 ← strip_prefix ("," ++ quoted "name" ++ ":" ++ dq) s2;
  '(n, s4) ← read_body s3;
  if String.eqb s4 "}" then Some (mkUser i n) else None.

#[export] Instance user_serializer : Serializer user := {
  Marshal u := (user_json u, None);
  Unmarshal data r :=
    if String.eqb data "null" then (r, None)
    else match parse_user data with
         | Some u => (u, None)
         | None => (r, Some "invalid character")
         end
}.

#[export] Instance user_zero : Zero user := mkUser "" "".

(** ** Entities, indexes and IDs *)

(** [Index]: an ordered map field name -> (stringified) value. *)
Definition Index := list (string * string).
Definition Indexes := list Index.

(** The [Table[I]] constraint on entities, with string IDs. *)
Class Table (T : Type) := {
  GetID : T -> string;
  ListIndexes : T -> Indexes
}.

#[export] Instance user_table : Table user := {
  GetID := uid;
  ListIndexes u := [[("name", uname u)]]
}.

(** Modelled from the spec: [IsNullID] (package [cachelayer], not in the
    sources) -- the null ID is the zero value of the ID type, here the
    empty string. *)
Definition IsNullID (id : string) : bool := String.eqb id "".

(** Go's [v.(string)] type assertion panics on a [nil] interface value. *)
Inductive go_ret (A : Type) :=
| Returned (a : A)
| Panicked (msg : string).
Arguments Returned {A} a.
Arguments Panicked {A} msg.

(** ** RedisHashJson[T, I] (jsonSerializer.go) *)

Module RedisHashJson.
Section RedisHashJson.
  Context {T : Type} `{Serializer T} `{Zero T} `{Table T}.

Definition HGetJson (key id : string) (s : redis)
      : redis * (T * bool * option err) :=
    let idStr := id in
    let r := zero in
    let '(s, raw) := Redis.hget key idStr s in
    match raw with
    | None => (s, (r, false, None))
    | Some raw => let '(r, e) := Unmarshal raw r in (s, (r, true, e))
    end.

  (** The decoding loop of [HMGetJson]: a [nil] slot hits [v.(string)];
      a decoding error returns what was decoded so far with a nil error. *)
Fixpoint decode_all (r : list T) (raw : list (option string))
      : go_ret (list T * option err) :=
    match raw with
    | [] => Returned (r, None)
    | None :: _ =>
        Panicked "interface conversion: interface {} is nil, not string"
    | Some v :: rest =>
        let '(t, e) := Unmarshal v zero in
        match e with
        | Some _ => Returned (r, None)
        | None => decode_all (r ++ [t]) rest
        end
    end.

Definition HMGetJson (key : string) (ids : list string) (s : redis)
      : redis * go_ret (list T * option err) :=
    match ids with
    | [] => (s, Returned ([], None))
    | _ =>
        let idStrs := ids in
        let '(s, raw) := Redis.hmget key idStrs s in
        (s, decode_all [] raw)
    end.

  (** The decoding loop of [HGetAllJson] (and of [HMGetJson] once the
      slots are strings): a decoding error returns what was decoded so far
      with a nil error. *)
Fixpoint decode_until (r : list T) (raw : list string) : list T :=
    match raw with
    | [] => r
    | v :: rest =>
        let '(t, e) := Unmarshal v zero in
        match e with
        | Some _ => r
        | None => decode_until (r ++ [t]) rest
        end
    end.

Definition HGetAllJson (key : string) (s : redis) : redis * (list T * option err) :=
    let '(s, raw) := Redis.hgetall key s in
    (s, (decode_until [] (map snd raw), None)).

Definition HDelJson (key : string) (ids : list string) (s : redis)
      : redis * option err :=
    match ids with
    | [] => (s, None)
    | _ => let idStrs := ids in (Redis.hdel key idStrs s, None)
    end.

Fixpoint hset_args (objs : list T) : list (string * string) * option err :=
    match objs with
    | [] => ([], None)
    | v :: rest =>
        let '(y, e) := Marshal v in
        match e with
        | Some e => ([], Some e)
        | None => let '(args, e') := hset_args rest in
                  ((GetID v, y) :: args, e')
        end
    end.

Definition HSetJson (key : string) (objs : list T) (s : redis)
      : redis * option err :=
    match objs with
    | [] => (s, None)
    | _ =>
        let '(args, e) := hset_args objs in
        match e with
        | Some e => (s, Some e)
        | None => (Redis.hset key args s, None)
        end
    end.
End RedisHashJson.
End RedisHashJson.

(** ** FullRedisCache[T, I] (fullRedisCache.go) *)

(** The part of the [FullDBCache] interface that [FullRedisCache] calls;
    [V] is the type of the [values] argument of [Update]. A method returns
    the new backend state. *)
Class FullDBCache (D T V : Type) := {
  db_Create : T -> D -> D * T * option err;
  db_Save : T -> D -> D * option err;
  db_Update : string -> V -> D -> D * Z * option err;
  db_Delete : list string -> D -> D * Z * option err;
  db_ListAll : D -> list T * option err
}.

Record fstate (D : Type) := mkF { f_db : D; f_red : redis }.
Arguments mkF {D} f_db f_red.
Arguments f_db {D} f.
Arguments f_red {D} f.

Module FullRedisCache.
Section FullRedisCache.
  Context {D T V : Type} `{Serializer T} `{Zero T} `{Table T}
          `{FullDBCache D T V}.
  Variables prefix table : string.

Definition CacheKey : string :=
    let r := prefix ++ "/" ++ table ++ "/full" in
    ToLower r.

  (** [load]: [s.red.HSetJson(key, r)] is read as [HSetJson(key, r...)]. *)
Definition load (w : fstate D) : fstate D * option err :=
    let '(r, e) := db_ListAll (f_db w) in
    match e with
    | Some e => (w, Some e)
    | None =>
        let key := CacheKey in
        let '(red, e) := RedisHashJson.HSetJson key r (f_red w) in
        match e with
        | Some e => (mkF (f_db w) red, Some e)
        | None => (mkF (f_db w) (Redis.expire key red), None)
        end
    end.

Definition Get (id : string) (w : fstate D)
      : fstate D * (T * bool * option err) :=
    let key := CacheKey in
    let '(red, (r, exists_, e)) := RedisHashJson.HGetJson key id (f_red w) in
    let w := mkF (f_db w) red in
    match e with
    | Some e => (w, (r, false, Some e))
    | None =>
        if exists_ then (w, (r, true, None))
        else
          let '(w, e) := load w in
          match e with
          | Some e => (w, (r, false, Some e))
          | None =>
              let '(red, res) := RedisHashJson.HGetJson key id (f_red w) in
              (mkF (f_db w) red, res)
          end
    end.

Definition List (ids : list string) (w : fstate D)
      : fstate D * go_ret (list T * option err) :=
    let key := CacheKey in
    let '(red, count) := Redis.exists_ key (f_red w) in
    let w := mkF (f_db w) red in
    let '(w, e) := if (count =? 0)%Z then load w else (w, None) in
    match e with
    | Some e => (w, Returned ([], Some e))
    | None =>
        let '(red, res) := RedisHashJson.HMGetJson key ids (f_red w) in
        (mkF (f_db w) red, res)
    end.

Definition Create (r : T) (w : fstate D) : fstate D * T * option err :=
    let '(db, r, e) := db_Create r (f_db w) in
    let w := mkF db (f_red w) in
    match e with
    | Some e => (w, r, Some e)
    | None => let '(w, e) := load w in (w, r, e)
    end.

Definition Save (r : T) (w : fstate D) : fstate D * T * option err :=
    let '(w, (_, exists_, e)) := Get (GetID r) w in
    match e with
    | Some e => (w, r, Some e)
    | None =>
        let '(w, r, e) :=
          if IsNullID (GetID r) || negb exists_ then
            let '(db, r, e) := db_Create r (f_db w) in (mkF db (f_red w), r, e)
          else
            let '(db, e) := db_Save r (f_db w) in (mkF db (f_red w), r, e) in
        match e with
        | Some e => (w, r, Some e)
        | None => let '(w, _) := load w in (w, r, None)
        end
    end.

Definition Update (id : string) (values : V) (w : fstate D)
      : fstate D * (Z * option err) :=
    if IsNullID id then (w, (0%Z, None))
    else
      let '(db, effectedRows, e) := db_Update id values (f_db w) in
      let w := mkF db (f_red w) in
      match e with
      | Some e => (w, (0%Z, Some e))
      | None => let '(w, _) := load w in (w, (effectedRows, e))
      end.

Definition Delete (ids : list string) (w : fstate D)
      : fstate D * (Z * option err) :=
    let '(db, rowsAffected, e) := db_Delete ids (f_db w) in
    let w := mkF db (f_red w) in
    match e with
    | Some e => (w, (0%Z, Some e))
    | None => let '(w, _) := load w in (w, (rowsAffected, e))
    end.
Definition ListAll (w : fstate D) : fstate D * (list T * option err) :=
    let key := CacheKey in
    let '(red, count) := Redis.exists_ key (f_red w) in
    let w := mkF (f_db w) red in
    let '(w, e) := if (count =? 0)%Z then load w else (w, None) in
    match e with
    | Some e => (w, ([], Some e))
    | None =>
        let '(red, res) := RedisHashJson.HGetAllJson key (f_red w) in
        (mkF (f_db w) red, res)
    end.

  (** [ClearCache(objs ...T)]: the entities are ignored. *)
Definition ClearCache (objs : list T) (w : fstate D) : fstate D * option err :=
    (mkF (f_db w) (Redis.del [CacheKey] (f_red w)), None).
End FullRedisCache.
End FullRedisCache.

(** ** A concrete in-memory backend for [FullRedisCache]

    [memdb] stands for a SQL table behind the [FullDBCache] interface
    (the Gorm adapter of the repository); [md_write_err] and
    [md_listall_err] are the errors its writes and its [ListAll] report
    when the database rejects them or is unreachable. *)

Record memdb := mkMemdb {
  md_rows : list user;
  md_write_err : option err;
  md_listall_err : option err
}.

Definition set_rows (d : memdb) (rows : list user) : memdb :=
  mkMemdb rows (md_write_err d) (md_listall_err d).

Definition apply_name (vals : list (string * string)) (u : user) : user :=
  match list_find (fun p => fst p = "name") vals with
  | Some (_, (_, n)) => mkUser (uid u) n
  | None => u
  end.

#[export] Instance memdb_backend
    : FullDBCache memdb user (list (string * string)) := {
  db_Create u d :=
    match md_write_err d with
    | Some e => (d, u, Some e)
    | None => (set_rows d (md_rows d ++ [u]), u, None)
    end;
  db_Save u d :=
    match md_write_err d with
    | Some e => (d, Some e)
    | None => (set_rows d (map (fun x => if String.eqb (uid x) (uid u)
                                         then u else x) (md_rows d)), None)
    end;
  db_Update id vals d :=
    match md_write_err d with
    | Some e => (d, 0%Z, Some e)
    | None =>
        (set_rows d (map (fun x => if String.eqb (uid x) id
                                   then apply_name vals x else x) (md_rows d)),
         Z.of_nat (length (filter (fun x => uid x = id) (md_rows d))), None)
    end;
  db_Delete ids d :=
    match md_write_err d with
    | Some e => (d, 0%Z, Some e)
    | None =>
        (set_rows d (filter (fun x => uid x ∉ ids) (md_rows d)),
         Z.of_nat (length (filter (fun x => uid x ∈ ids) (md_rows d))), None)
    end;
  db_ListAll d :=
    match md_listall_err d with
    | Some e => ([], Some e)
    | None => (md_rows d, None)
    end
}.

Definition empty_redis : redis := mkRedis ∅ ∅ [].

(** ** RedisMongo[T, I] (mongoredis/redismongo.go) *)

(** Modelled from the spec: [CacheBase.MakeCacheKey] (package
    [cachelayer], not in the sources) -- the key of an index is
    [{prefix}/{table}/{field}/{value}], one [/{field}/{value}] per field
    of the index, lowercased. *)
Definition MakeCacheKey (prefix table : string) (idx : Index) : string :=
  ToLower (prefix ++ "/" ++ table
           ++ foldr (fun p acc => "/" ++ fst p ++ "/" ++ snd p ++ acc) "" idx).

(** Modelled from the spec: [NewIndex] (package [cachelayer]) -- the
    one-field index [{field: value}]. *)
Definition NewIndex (field value : string) : Index := [(field, value)].

(** Modelled from the spec: [UniqueStrings] (package [cachelayer]) --
    deduplicates, keeping the first occurrence of each string. *)
Fixpoint UniqueStrings (l : list string) : list string :=
  match l with
  | [] => []
  | x :: r => x :: filter (fun y => y <> x) (UniqueStrings r)
  end.

(** Modelled from the spec: [Indexes.Merge] (package [cachelayer]) -- the
    union of two index lists, here their concatenation (the keys derived
    from it are deduplicated by [ClearCache]). *)
Definition Merge (a b : Indexes) : Indexes := app a b.

(** The mongo driver calls [redismongo.go] makes, for fault injection. *)
Inductive mop := OpFind | OpInsert | OpReplace | OpUpdate | OpDelete.

Definition ErrNoDocuments : err := "mongo: no documents in result".

(** What [reflect] and the Mongo driver do to a document:
    [reflect.ValueOf(&t).Elem().FieldByName(f).SetString(v)] -- the
    document with its string field [f] set to [v], or the panic of
    [reflect] when [f] names no field ([FieldByName] gives the zero
    [Value]) or a field that is not a settable string -- and a [$set] of
    [key path -> value] pairs. *)
Class MongoDoc (T : Type) := {
  SetField : T -> string -> string -> go_ret T;
  ApplySet : T -> list (string * string) -> T
}.

(** The [values interface{}] argument of [Update]. *)
Inductive UpdateValues :=
| UVMap (m : list (string * string))
| UVOther.

(** The state: the collection (documents keyed by [_id]), the driver
    faults, the ObjectID counter and the Redis server. *)
Record mstate (T : Type) := mkM {
  m_coll : gmap string T;
  m_fail : mop -> option err;
  m_oid : nat;
  m_red : redis
}.
Arguments mkM {T} m_coll m_fail m_oid m_red.
Arguments m_coll {T} m.
Arguments m_fail {T} m.
Arguments m_oid {T} m.
Arguments m_red {T} m.

Definition with_coll {T} (m : mstate T) (c : gmap string T) : mstate T :=
  mkM c (m_fail m) (m_oid m) (m_red m).
Definition with_red {T} (m : mstate T) (r : redis) : mstate T :=
  mkM (m_coll m) (m_fail m) (m_oid m) r.

(** [primitive.NewObjectID().Hex()]: a fresh 24-digit hex string. *)
Fixpoint hex_digits (fuel n : nat) : string :=
  match fuel with
  | O => ""
  | S f => hex_digits f (n / 16) ++
           String (ascii_of_nat (let d := n mod 16 in
                                 if (d <? 10)%nat then 48 + d else 87 + d))
                  EmptyString
  end.
Definition NewObjectIDHex (n : nat) : string := hex_digits 24 n.

Module Mongo.
Section Mongo.
  Context {T : Type} `{Zero T} `{Table T} `{MongoDoc T}.

Definition FindOne (id : string) (m : mstate T) : option T * option err :=
    match m_fail m OpFind with
    | Some e => (None, Some e)
    | None =>
        match m_coll m !! id with
        | Some d => (Some d, None)
        | None => (None, Some ErrNoDocuments)
        end
    end.

Definition Find (ids : list string) (m : mstate T) : list T * option err :=
    match m_fail m OpFind with
    | Some e => ([], Some e)
    | None => (omap (fun id => m_coll m !! id) (remove_dups ids), None)
    end.

Definition InsertOne (t : T) (m : mstate T) : mstate T * option err :=
    match m_fail m OpInsert with
    | Some e => (m, Some e)
    | None =>
        match m_coll m !! GetID t with
        | Some _ => (m, Some "E11000 duplicate key error")
        | None => (with_coll m (<[GetID t := t]> (m_coll m)), None)
        end
    end.

Definition FindOneAndReplace (id : string) (t : T) (m : mstate T)
      : mstate T * option err :=
    match m_fail m OpReplace with
    | Some e => (m, Some e)
    | None =>
        match m_coll m !! id with
        | Some _ => (with_coll m (<[id := t]> (m_coll m)), None)
        | None => (m, Some ErrNoDocuments)
        end
    end.

  (** [UpdateOne]: returns [MatchedCount]. *)
Definition UpdateOne (id : string) (setD : list (string * string))
      (m : mstate T) : mstate T * Z * option err :=
    match m_fail m OpUpdate with
    | Some e => (m, 0%Z, Some e)
    | None =>
        match m_coll m !! id with
        | Some d => (with_coll m (<[id := ApplySet d setD]> (m_coll m)), 1%Z, None)
        | None => (m, 0%Z, None)
        end
    end.

  (** [DeleteMany]: returns [DeletedCount]. *)
Definition DeleteMany (ids : list string) (m : mstate T)
      : mstate T * Z * option err :=
    match m_fail m OpDelete with
    | Some e => (m, 0%Z, Some e)
    | None =>
        let hit := filter (fun id => is_Some (m_coll m !! id))
                          (remove_dups ids) in
        (with_coll m (foldl (fun c id => delete id c) (m_coll m) ids),
         Z.of_nat (length hit), None)
    end.
End Mongo.
End Mongo.

Module RedisMongo.
Section RedisMongo.
  Context {T : Type} `{Zero T} `{Table T} `{MongoDoc T}.
  Variables prefix table idField : string.

Definition ClearCache (id : string) (indexes : Indexes) (m : mstate T)
      : mstate T * option err :=
    let keys := if IsNullID id then []
                else [MakeCacheKey prefix table (NewIndex idField id)] in
    let keys := app keys (map (MakeCacheKey prefix table) indexes) in
    let keys := UniqueStrings keys in
    (with_red m (Redis.del keys (m_red m)), None).

Definition Get (id : string) (m : mstate T) : T * bool * option err :=
    let t := zero in
    match Mongo.FindOne id m with
    | (_, Some e) =>
        if String.eqb e ErrNoDocuments then (t, false, None) else (t, false, Some e)
    | (Some d, None) => (d, true, None)
    | (None, None) => (t, false, None)
    end.

Definition List (ids : list string) (m : mstate T) : list T * option err :=
    Mongo.Find ids m.

  (** The first step of [Create]: an entity with a null ID gets a fresh
      ObjectID hex string in its field [idField] (through [reflect], which
      panics when [idField] is not a settable string field). *)
Definition AssignID (t : T) (m : mstate T) : go_ret (T * mstate T) :=
    if IsNullID (GetID t)
    then match SetField t idField (NewObjectIDHex (m_oid m)) with
         | Returned t => Returned (t, mkM (m_coll m) (m_fail m) (S (m_oid m)) (m_red m))
         | Panicked msg => Panicked msg
         end
    else Returned (t, m).

  (** [Create(t *T)]: returns the new state, the pointed-to entity after the
      call ([None] for a nil pointer) and the error, or the panic. *)
Definition Create (t : option T) (m : mstate T)
      : go_ret (mstate T * option T * option err) :=
    match t with
    | None => Returned (m, None, None)
    | Some t =>
        match AssignID t m with
        | Panicked msg => Panicked msg
        | Returned (t, m) =>
            let '(m, e) := Mongo.InsertOne t m in
            match e with
            | Some e => Returned (m, Some t, Some e)
            | None =>
                let '(m, _) := ClearCache (GetID t) (ListIndexes t) m in
                Returned (m, Some t, None)
            end
        end
    end.

Definition Save (t : option T) (m : mstate T)
      : go_ret (mstate T * option T * option err) :=
    match t with
    | None => Returned (m, None, None)
    | Some t' =>
        let id := GetID t' in
        if IsNullID id then Create t m
        else
          let '(_, exist_, e) := Get id m in
          match e with
          | Some _ => Returned (m, t, None)
          | None =>
              if negb exist_ then Create t m
              else
                let '(m, e) := Mongo.FindOneAndReplace id t' m in
                Returned (m, t, e)
          end
    end.

Definition Delete (ids : list string) (m : mstate T)
      : mstate T * (Z * option err) :=
    match ids with
    | [] => (m, (0%Z, None))
    | _ =>
        let '(objs, e) := List ids m in
        match e with
        | Some e => (m, (0%Z, Some e))
        | None =>
            let '(m, deleted, e) := Mongo.DeleteMany ids m in
            match e with
            | Some e => (m, (0%Z, Some e))
            | None =>
                let m := foldl (fun m v => fst (ClearCache (GetID v) (ListIndexes v) m))
                               m objs in
                (m, (deleted, None))
            end
        end
    end.

Definition Update (id : string) (values : UpdateValues) (m : mstate T)
      : mstate T * (Z * option err) :=
    if IsNullID id then (m, (0%Z, None))
    else
      let '(old, _, e) := Get id m in
      match e with
      | Some e => (m, (0%Z, Some e))
      | None =>
          match values with
          | UVOther =>
              (m, (0%Z, Some ("RedisMongo.Update not support this type of update values, only support map[string]interface{}")))
          | UVMap vs =>
              let setD := vs in
              let '(m, matched, e) := Mongo.UpdateOne id setD m in
              match e with
              | Some e => (m, (0%Z, Some e))
              | None =>
                  let '(newObj, _, e) := Get id m in
                  match e with
                  | Some e => (m, (0%Z, Some e))
                  | None =>
                      let '(m, _) := ClearCache (GetID old)
                                       (Merge (ListIndexes old) (ListIndexes newObj)) m in
                      (m, (matched, None))
                  end
              end
          end
      end.
End RedisMongo.
End RedisMongo.

#[export] Instance user_doc : MongoDoc user := {
  SetField u f v :=
    if String.eqb f "ID" then Returned (mkUser v (uname u))
    else if String.eqb f "Name" then Returned (mkUser (uid u) v)
    else Panicked "reflect: call of reflect.Value.SetString on zero Value";
  ApplySet u vals := apply_name vals u
}.

(** ** Gorm[T, I] (the Gorm adapter, gormredis package)

    The table is a map from primary key to row; [g_fail] gives the error
    the database reports for each Gorm call ([First], [Create], [Save],
    [Updates]), for fault injection.  A [Create] of a primary key already
    present is rejected, as the database's unique key does.

    The ID type is [string] here.  [db.First(&r, id)] passes [id] to gorm as
    an inline condition, and gorm's [BuildCondition] reads a string
    condition by what [strconv.Atoi] makes of it: a number is a primary key
    value, any other non-empty string is raw SQL put in the [WHERE] clause,
    and the empty string is no condition at all. *)

Inductive gop := GFirst | GCreate | GSave | GUpdates.

Definition ErrRecordNotFound : err := "record not found".

Record gdb (T : Type) := mkG {
  g_rows : gmap string T;
  g_fail : gop -> option err
}.
Arguments mkG {T} g_rows g_fail.
Arguments g_rows {T} g.
Arguments g_fail {T} g.

Definition with_rows {T} (g : gdb T) (rows : gmap string T) : gdb T :=
  mkG rows (g_fail g).

(** [strconv.Atoi]: an optional sign and at least one decimal digit, whose
    value fits in a 64-bit [int]. *)
Definition is_digit (c : ascii) : bool :=
  (48 <=? nat_of_ascii c)%nat && (nat_of_ascii c <=? 57)%nat.

Fixpoint digits_val (s : string) (acc : Z) : option Z :=
  match s with
  | EmptyString => Some acc
  | String c r =>
      if is_digit c then digits_val r (acc * 10 + Z.of_nat (nat_of_ascii c - 48))%Z
      else None
  end.

Definition Atoi (s : string) : option Z :=
  let '(neg, body) :=
    match s with
    | String c r =>
        if Ascii.eqb c "-"%char then (true, r)
        else if Ascii.eqb c "+"%char then (false, r)
        else (false, s)
    | EmptyString => (false, s)
    end in
  match body with
  | EmptyString => None
  | _ =>
      match digits_val body 0 with
      | None => None
      | Some v =>
          let v := if neg then (- v)%Z else v in
          if (- 2 ^ 63 <=? v)%Z && (v <? 2 ^ 63)%Z then Some v else None
      end
  end.

Module Gorm.
Section Gorm.
  Context {T : Type} `{Zero T} `{Table T}.
  (** [db.First(&r, cond)] for a condition gorm does not read as a primary
      key: the first row, in primary-key order, of the rows the raw SQL
      [WHERE cond] selects (of the whole table for the empty condition),
      or the database's error -- for instance ["no such column: zz"]. *)
  Variable FirstWhere : string -> gdb T -> T * option err.
  (** [db.Model(&old).Updates(values)] on the row [old]: the updated row
      and the [RowsAffected] the driver reports. *)
  Variable Updates : T -> list (string * string) -> T * Z.

  (** [db.First(&r, id)]: a numeric [id] is looked up as the primary key,
      a missing row being [ErrRecordNotFound]; any other [id] is a raw
      SQL condition. *)
Definition First (id : string) (g : gdb T) : T * option err :=
    match g_fail g GFirst with
    | Some e => (zero, Some e)
    | None =>
        match Atoi id with
        | Some _ =>
            match g_rows g !! id with
            | Some r => (r, None)
            | None => (zero, Some ErrRecordNotFound)
            end
        | None => FirstWhere id g
        end
    end.

Definition Get (id : string) (g : gdb T) : T * bool * option err :=
    match First id g with
    | (r, Some e) =>
        if String.eqb e ErrRecordNotFound then (r, false, None) else (r, false, Some e)
    | (r, None) => (r, true, None)
    end.

Definition Create (r : T) (g : gdb T) : gdb T * option err :=
    match g_fail g GCreate with
    | Some e => (g, Some e)
    | None =>
        match g_rows g !! GetID r with
        | Some _ => (g, Some "duplicated key not allowed")
        | None => (with_rows g (<[GetID r := r]> (g_rows g)), None)
        end
    end.

Definition Save (r : T) (g : gdb T) : gdb T * option err :=
    let '(_, exists_, e) := Get (GetID r) g in
    match e with
    | Some e => (g, Some e)
    | None =>
        if negb exists_ then Create r g
        else
          match g_fail g GSave with
          | Some e => (g, Some e)
          | None => (with_rows g (<[GetID r := r]> (g_rows g)), None)
          end
    end.

Definition Update (id : string) (values : list (string * string)) (g : gdb T)
      : gdb T * (Z * option err) :=
    let '(old, exists_, e) := Get id g in
    match e with
    | Some e => (g, (0%Z, Some e))
    | None =>
        if negb exists_ then (g, (0%Z, None))
        else
          match g_fail g GUpdates with
          | Some e => (g, (0%Z, Some e))
          | None =>
              let '(new, rowsAffected) := Updates old values in
              (with_rows g (<[GetID old := new]> (g_rows g)), (rowsAffected, None))
          end
    end.
End Gorm.
End Gorm.

(** A second concrete entity, [{ID string; Tags []string}], indexed by
    each of its tags (a Mongo multikey index): [ListIndexes] returns one
    index [{tags: t}] per tag. A [$set] on the key path [tags.N] replaces
    the N-th tag (one-digit positions). *)

Record article := mkArticle { aid : string; tags : list string }.

#[export] Instance article_zero : Zero article := mkArticle "" [].

#[export] Instance article_table : Table article := {
  GetID := aid;
  ListIndexes a := map (fun t => [("tags", t)]) (tags a)
}.

Definition set_tag (a : article) (p : string * string) : article :=
  match fst p with
  | String c0 (String c1 (String c2 (String c3 (String dot
      (String d EmptyString))))) =>
      if String.eqb (String c0 (String c1 (String c2 (String c3
                       EmptyString)))) "tags"
         && Ascii.eqb dot "."%char
      then mkArticle (aid a)
             (<[(nat_of_ascii d - 48)%nat := snd p]> (tags a))
      else a
  | _ => a
  end.

#[export] Instance article_doc : MongoDoc article := {
  SetField a f v :=
    if String.eqb f "ID" then Returned (mkArticle v (tags a))
    else if String.eqb f "Tags"
    then Panicked "reflect: call of reflect.Value.SetString on slice Value"
    else Panicked "reflect: call of reflect.Value.SetString on zero Value";
  ApplySet a vals := foldl set_tag a vals
}.

(** ** Specification helpers *)

(** The error of the first value, in iteration order, that fails to
    marshal. *)
Fixpoint first_marshal_error {V} `{Serializer V} (objMap : list (string * V))
    : option err :=
  match objMap with
  | [] => None
  | (_, v) :: rest =>
      match snd (Marshal v) with
      | Some e => Some e
      | None => first_marshal_error rest
      end
  end.

(** ** Proofs: strings and keys *)

(** ** UTF-8 and [strings.ToLower] *)

Open Scope Z_scope.

Lemma byte_val_range (c : ascii) : 0 <= byte_val c < 256.
Proof.
  unfold byte_val. pose proof (N_ascii_bounded c). lia.
Qed.

Lemma byte_val_byte (z : Z) : 0 <= z < 256 -> byte_val (byte z) = z.
Proof.
  intros Hz. unfold byte_val, byte. rewrite Z.mod_small by lia.
  rewrite N_ascii_embedding by lia. lia.
Qed.

Lemma byte_byte_val (c : ascii) : byte (byte_val c) = c.
Proof.
  unfold byte, byte_val. pose proof (N_ascii_bounded c).
  rewrite Z.mod_small by lia. rewrite N2Z.id. apply ascii_N_embedding.
Qed.

Lemma lor_add (a b k : Z) :
  0 <= k -> 0 <= b < 2 ^ k -> a mod 2 ^ k = 0 -> Z.lor a b = a + b.
Proof.
  intros Hk Hb Ha.
  assert (Hl : Z.land a b = 0).
  { apply Z.bits_inj'. intros i Hi. rewrite Z.land_spec, Z.bits_0.
    destruct (Z.lt_ge_cases i k) as [Hik|Hik].
    - rewrite <- (Z.mod_pow2_bits_low a k i) by lia. rewrite Ha, Z.bits_0. reflexivity.
    - rewrite <- (Z.mod_small b (2 ^ k)) by lia.
      rewrite Z.mod_pow2_bits_high by lia. apply andb_false_r. }
  rewrite <- Z.lxor_lor by exact Hl. symmetry. now apply Z.add_nocarry_lxor.
Qed.

Lemma land_mask (x : Z) (n : Z) : 0 <= n -> Z.land x (Z.ones n) = x mod 2 ^ n.
Proof. intros. now apply Z.land_ones. Qed.

Lemma decode2_val (s0 s1 : Z) : 0 <= s0 -> 0 <= s1 ->
  Z.lor (Z.shiftl (Z.land s0 mask2) 6) (Z.land s1 maskx) = (s0 mod 32) * 64 + s1 mod 64.
Proof.
  intros. change mask2 with (Z.ones 5). change maskx with (Z.ones 6).
  rewrite !land_mask by lia. rewrite Z.shiftl_mul_pow2 by lia.
  change (2 ^ 6) with 64. change (2 ^ 5) with 32.
  pose proof (Z.mod_pos_bound s1 64 ltac:(lia)).
  apply (lor_add _ _ 6); change (2 ^ 6) with 64; [lia | lia | rewrite Z.mod_mul; lia].
Qed.

Lemma decode3_val (s0 s1 s2 : Z) : 0 <= s0 -> 0 <= s1 -> 0 <= s2 ->
  Z.lor (Z.lor (Z.shiftl (Z.land s0 mask3) 12) (Z.shiftl (Z.land s1 maskx) 6))
        (Z.land s2 maskx)
  = (s0 mod 16) * 4096 + (s1 mod 64) * 64 + s2 mod 64.
Proof.
  intros. change mask3 with (Z.ones 4). change maskx with (Z.ones 6).
  rewrite !land_mask by lia. rewrite !Z.shiftl_mul_pow2 by lia.
  change (2 ^ 4) with 16. change (2 ^ 6) with 64. change (2 ^ 12) with 4096.
  pose proof (Z.mod_pos_bound s0 16 ltac:(lia)).
  pose proof (Z.mod_pos_bound s1 64 ltac:(lia)).
  pose proof (Z.mod_pos_bound s2 64 ltac:(lia)).
  rewrite (lor_add (s0 mod 16 * 4096) (s1 mod 64 * 64) 12);
    change (2 ^ 12) with 4096; [| lia | lia | rewrite Z.mod_mul; lia].
  rewrite (lor_add (s0 mod 16 * 4096 + s1 mod 64 * 64) (s2 mod 64) 6);
    change (2 ^ 6) with 64; [reflexivity | lia | lia |].
  replace (s0 mod 16 * 4096 + s1 mod 64 * 64) with ((s0 mod 16 * 64 + s1 mod 64) * 64) by lia.
  rewrite Z.mod_mul; lia.
Qed.

Lemma decode4_val (s0 s1 s2 s3 : Z) : 0 <= s0 -> 0 <= s1 -> 0 <= s2 -> 0 <= s3 ->
  Z.lor (Z.lor (Z.lor (Z.shiftl (Z.land s0 mask4) 18) (Z.shiftl (Z.land s1 maskx) 12))
               (Z.shiftl (Z.land s2 maskx) 6))
        (Z.land s3 maskx)
  = (s0 mod 8) * 262144 + (s1 mod 64) * 4096 + (s2 mod 64) * 64 + s3 mod 64.
Proof.
  intros. change mask4 with (Z.ones 3). change maskx with (Z.ones 6).
  rewrite !land_mask by lia. rewrite !Z.shiftl_mul_pow2 by lia.
  change (2 ^ 3) with 8. change (2 ^ 6) with 64. change (2 ^ 12) with 4096.
  change (2 ^ 18) with 262144.
  pose proof (Z.mod_pos_bound s0 8 ltac:(lia)).
  pose proof (Z.mod_pos_bound s1 64 ltac:(lia)).
  pose proof (Z.mod_pos_bound s2 64 ltac:(lia)).
  pose proof (Z.mod_pos_bound s3 64 ltac:(lia)).
  rewrite (lor_add (s0 mod 8 * 262144) (s1 mod 64 * 4096) 18);
    change (2 ^ 18) with 262144; [| lia | lia | rewrite Z.mod_mul; lia].
  rewrite (lor_add (s0 mod 8 * 262144 + s1 mod 64 * 4096) (s2 mod 64 * 64) 12);
    change (2 ^ 12) with 4096; [| lia | lia |].
  2:{ replace (s0 mod 8 * 262144 + s1 mod 64 * 4096)
        with ((s0 mod 8 * 64 + s1 mod 64) * 4096) by lia. rewrite Z.mod_mul; lia. }
  rewrite (lor_add (s0 mod 8 * 262144 + s1 mod 64 * 4096 + s2 mod 64 * 64) (s3 mod 64) 6);
    change (2 ^ 6) with 64; [reflexivity | lia | lia |].
  replace (s0 mod 8 * 262144 + s1 mod 64 * 4096 + s2 mod 64 * 64)
    with ((s0 mod 8 * 4096 + s1 mod 64 * 64 + s2 mod 64) * 64) by lia.
  rewrite Z.mod_mul; lia.
Qed.

(** The bytes [EncodeRune] writes, by range. *)
Lemma or_byte (t x k : Z) : 0 <= k -> 0 <= x < 2 ^ k -> t mod 2 ^ k = 0 ->
  Z.lor t x = t + x.
Proof. intros. now apply (lor_add _ _ k). Qed.

Lemma EncodeRune_1 (r : Z) : 0 <= r <= 0x7F -> EncodeRune r = String (byte r) EmptyString.
Proof.
  intros Hr. unfold EncodeRune, rune1Max.
  replace ((0 <=? r) && (r <=? 127)) with true by (symmetry; apply andb_true_intro; split; apply Z.leb_le; lia).
  reflexivity.
Qed.

Lemma EncodeRune_2 (r : Z) : 0x80 <= r <= 0x7FF ->
  EncodeRune r = String (byte (0xC0 + r / 64)) (String (byte (0x80 + r mod 64)) EmptyString).
Proof.
  intros Hr. unfold EncodeRune, rune1Max, rune2Max.
  replace ((0 <=? r) && (r <=? 127)) with false by (symmetry; apply andb_false_iff; right; apply Z.leb_gt; lia).
  replace ((0 <=? r) && (r <=? 2047)) with true by (symmetry; apply andb_true_intro; split; apply Z.leb_le; lia).
  rewrite Z.shiftr_div_pow2 by lia. change maskx with (Z.ones 6). rewrite land_mask by lia.
  change (2 ^ 6) with 64.
  rewrite (or_byte _ _ 6), (or_byte _ (r mod 64) 6); try reflexivity; try lia.
  - pose proof (Z.mod_pos_bound r 64). change (2 ^ 6) with 64. lia.
  - change (2 ^ 6) with 64. split; [apply Z.div_pos; lia|].
    apply Z.div_lt_upper_bound; lia.
Qed.

Ltac zl := Z.div_mod_to_equations; lia.

Ltac zbool :=
  repeat (match goal with
  | |- context [?a <=? ?b] =>
      first [rewrite (proj2 (Z.leb_le a b)) by zl | rewrite (proj2 (Z.leb_gt a b)) by zl]
  | |- context [?a <? ?b] =>
      first [rewrite (proj2 (Z.ltb_lt a b)) by zl | rewrite (proj2 (Z.ltb_ge a b)) by zl]
  | |- context [?a =? ?b] =>
      first [rewrite (proj2 (Z.eqb_eq a b)) by zl | rewrite (proj2 (Z.eqb_neq a b)) by zl]
  end; cbn [andb orb negb]).

Lemma EncodeRune_3 (r : Z) : 0x800 <= r <= 0xFFFF -> ~ (0xD800 <= r <= 0xDFFF) ->
  EncodeRune r = String (byte (0xE0 + r / 4096))
                   (String (byte (0x80 + (r / 64) mod 64))
                     (String (byte (0x80 + r mod 64)) EmptyString)).
Proof.
  intros Hr Hs. unfold EncodeRune, rune1Max, rune2Max, rune3Max, MaxRune,
    surrogateMin, surrogateMax. cbv zeta.
  replace ((55296 <=? r) && (r <=? 57343)) with false
    by (symmetry; apply andb_false_iff;
        destruct (Z.le_gt_cases 55296 r); [right|left]; apply Z.leb_gt; lia).
  zbool.
  rewrite !Z.shiftr_div_pow2 by lia. change maskx with (Z.ones 6).
  rewrite !land_mask by lia. change (2 ^ 6) with 64. change (2 ^ 12) with 4096.
  rewrite (or_byte t3 (r / 4096) 4), (or_byte tx ((r / 64) mod 64) 6),
    (or_byte tx (r mod 64) 6); try reflexivity; try lia; change (2 ^ 6) with 64;
    change (2 ^ 4) with 16; try zl.
Qed.

Lemma EncodeRune_4 (r : Z) : 0x10000 <= r <= 0x10FFFF ->
  EncodeRune r = String (byte (0xF0 + r / 262144))
                   (String (byte (0x80 + (r / 4096) mod 64))
                     (String (byte (0x80 + (r / 64) mod 64))
                       (String (byte (0x80 + r mod 64)) EmptyString))).
Proof.
  intros Hr. unfold EncodeRune, rune1Max, rune2Max, rune3Max, MaxRune,
    surrogateMin, surrogateMax. cbv zeta. zbool.
  rewrite !Z.shiftr_div_pow2 by lia. change maskx with (Z.ones 6).
  rewrite !land_mask by lia. change (2 ^ 6) with 64. change (2 ^ 12) with 4096.
  change (2 ^ 18) with 262144.
  rewrite (or_byte t4 (r / 262144) 3), (or_byte tx ((r / 4096) mod 64) 6),
    (or_byte tx ((r / 64) mod 64) 6), (or_byte tx (r mod 64) 6);
    try reflexivity; try lia; change (2 ^ 6) with 64; change (2 ^ 3) with 8; try zl.
Qed.

Lemma EncodeRune_valid_length (r : Z) : valid_rune r ->
  (1 <= String.length (EncodeRune r) <= 4)%nat.
Proof.
  unfold valid_rune, MaxRune, surrogateMin, surrogateMax. intros [Hr Hs].
  destruct (Z.le_gt_cases r 0x7F); [rewrite EncodeRune_1 by lia; simpl; lia|].
  destruct (Z.le_gt_cases r 0x7FF); [rewrite EncodeRune_2 by lia; simpl; lia|].
  destruct (Z.le_gt_cases r 0xFFFF); [rewrite EncodeRune_3 by lia; simpl; lia|].
  rewrite EncodeRune_4 by lia; simpl; lia.
Qed.

Ltac bv := rewrite ?byte_val_byte by zl.

(** Decoding an encoded valid rune gives it back, whatever follows. *)
Lemma decode_EncodeRune (r : Z) (s : string) : valid_rune r ->
  DecodeRuneInString (EncodeRune r ++ s) = (r, String.length (EncodeRune r)).
Proof.
  unfold valid_rune, MaxRune, surrogateMin, surrogateMax. intros [Hr Hs].
  destruct (Z.le_gt_cases r 0x7F).
  { rewrite EncodeRune_1 by lia. simpl.
    bv. unfold first. zbool. reflexivity. }
  destruct (Z.le_gt_cases r 0x7FF).
  { rewrite EncodeRune_2 by lia. simpl.
    bv. unfold first, locb, hicb. zbool. cbn.
    rewrite decode2_val by zl. f_equal. zl. }
  destruct (Z.le_gt_cases r 0xFFFF).
  { rewrite EncodeRune_3 by lia. simpl.
    bv.
    assert (r <= 0xFFF \/ 0x1000 <= r <= 0xCFFF \/ 0xD000 <= r <= 0xD7FF
            \/ 0xE000 <= r) as Hc by lia.
    destruct Hc as [Hc|[Hc|[Hc|Hc]]];
      unfold first, locb, hicb; zbool; cbn;
      rewrite decode3_val by zl; f_equal; zl. }
  { rewrite EncodeRune_4 by lia. simpl.
    bv.
    assert (r <= 0x3FFFF \/ 0x40000 <= r <= 0xFFFFF \/ 0x100000 <= r) as Hc by lia.
    destruct Hc as [Hc|[Hc|Hc]];
      unfold first, locb, hicb; zbool; cbn;
      rewrite decode4_val by zl; f_equal; zl. }
Qed.

Lemma first_ascii (b : Z) : first b = FAscii -> b < 0x80.
Proof.
  unfold first. intros Hf.
  repeat match type of Hf with
  | context [?a <? ?b] => destruct (Z.ltb_spec a b)
  | context [?a =? ?b] => destruct (Z.eqb_spec a b)
  end; simpl in Hf; try discriminate; lia.
Qed.

Lemma first_FSeq (b : Z) (sz : nat) (lo hi : Z) : first b = FSeq sz lo hi ->
  (sz = 2%nat /\ lo = 0x80 /\ hi = 0xBF /\ 0xC2 <= b <= 0xDF)
  \/ (sz = 3%nat /\ lo = 0xA0 /\ hi = 0xBF /\ b = 0xE0)
  \/ (sz = 3%nat /\ lo = 0x80 /\ hi = 0xBF /\ (0xE1 <= b <= 0xEC \/ 0xEE <= b <= 0xEF))
  \/ (sz = 3%nat /\ lo = 0x80 /\ hi = 0x9F /\ b = 0xED)
  \/ (sz = 4%nat /\ lo = 0x90 /\ hi = 0xBF /\ b = 0xF0)
  \/ (sz = 4%nat /\ lo = 0x80 /\ hi = 0xBF /\ 0xF1 <= b <= 0xF3)
  \/ (sz = 4%nat /\ lo = 0x80 /\ hi = 0x8F /\ b = 0xF4).
Proof.
  unfold first. intros Hf.
  repeat match type of Hf with
  | context [?a <? ?b] => destruct (Z.ltb_spec a b)
  | context [?a =? ?b] => destruct (Z.eqb_spec a b)
  end; simpl in Hf; try discriminate; injection Hf as <- <- <-; lia.
Qed.

Lemma byte_eq (c : ascii) (x : Z) : byte_val c = x -> c = byte x.
Proof. intros <-. symmetry. apply byte_byte_val. Qed.

Lemma cont_range (c : ascii) (lo hi : Z) :
  ((byte_val c <? lo) || (hi <? byte_val c))%bool = false -> lo <= byte_val c <= hi.
Proof.
  intros H. apply orb_false_iff in H as [H1 H2].
  apply Z.ltb_ge in H1. apply Z.ltb_ge in H2. lia.
Qed.

(** A rune decoded from valid bytes is valid, and those bytes are its
    encoding. *)
Lemma decode_valid_bytes (s : string) (r : Z) (w : nat) :
  s <> EmptyString -> DecodeRuneInString s = (r, w) ->
  ~ (r = RuneError /\ w = 1%nat) ->
  valid_rune r /\ str_take w s = EncodeRune r.
Proof.
  intros Hne Hd Hnr. destruct s as [|c0 s]; [congruence|].
  pose proof (byte_val_range c0) as R0.
  cbv [DecodeRuneInString] in Hd.
  destruct (first (byte_val c0)) as [| |sz lo hi] eqn:Hf.
  - apply first_ascii in Hf. injection Hd as <- <-.
    unfold valid_rune, MaxRune, surrogateMin, surrogateMax.
    split; [lia|]. rewrite EncodeRune_1 by lia. simpl. f_equal. now apply byte_eq.
  - injection Hd as <- <-. now contradict Hnr.
  - apply first_FSeq in Hf.
    destruct s as [|c1 s]; [injection Hd as <- <-; now contradict Hnr|].
    destruct ((byte_val c1 <? lo) || (hi <? byte_val c1))%bool eqn:C1;
      [injection Hd as <- <-; now contradict Hnr|].
    apply cont_range in C1. pose proof (byte_val_range c1) as R1.
    unfold valid_rune, MaxRune, surrogateMin, surrogateMax.
    destruct Hf as [(-> & -> & -> & Hb)|[(-> & -> & -> & Hb)|[(-> & -> & -> & Hb)|
                   [(-> & -> & -> & Hb)|[(-> & -> & -> & Hb)|[(-> & -> & -> & Hb)|
                   (-> & -> & -> & Hb)]]]]]];
      cbv [Nat.leb] in Hd.
    1: { injection Hd as <- <-; rewrite decode2_val by lia.
              split; [zl|]. rewrite EncodeRune_2 by zl. simpl.
              repeat (f_equal; try (apply byte_eq; zl)). }
    all: destruct s as [|c2 s]; cbv [Nat.leb] in Hd;
      [injection Hd as <- <-; now contradict Hnr|].
    all: destruct ((byte_val c2 <? locb) || (hicb <? byte_val c2))%bool eqn:C2;
      [injection Hd as <- <-; now contradict Hnr|].
    all: apply cont_range in C2; pose proof (byte_val_range c2) as R2;
      unfold locb, hicb in C2; cbv [Nat.leb] in Hd.
    all: try (injection Hd as <- <-; rewrite decode3_val by lia;
              split; [zl|]; rewrite EncodeRune_3 by zl; simpl;
              repeat (f_equal; try (apply byte_eq; zl)); fail).
    all: destruct s as [|c3 s]; cbv [Nat.leb] in Hd;
      [injection Hd as <- <-; now contradict Hnr|].
    all: destruct ((byte_val c3 <? locb) || (hicb <? byte_val c3))%bool eqn:C3;
      [injection Hd as <- <-; now contradict Hnr|].
    all: apply cont_range in C3; pose proof (byte_val_range c3) as R3;
      unfold locb, hicb in C3; cbv [Nat.leb] in Hd.
    all: injection Hd as <- <-; rewrite decode4_val by lia;
      split; [zl|]; rewrite EncodeRune_4 by zl; simpl;
      repeat (f_equal; try (apply byte_eq; zl)).
Qed.

Lemma str_app_cons (a : ascii) (x y : string) : String a x ++ y = String a (x ++ y).
Proof. reflexivity. Qed.

Lemma str_app_nil_l (y : string) : EmptyString ++ y = y.
Proof. reflexivity. Qed.

Lemma str_app_nil_r (s : string) : s ++ EmptyString = s.
Proof. induction s as [|a s IH]; [reflexivity|]. rewrite str_app_cons, IH. reflexivity. Qed.

Lemma str_app_assoc (x y z : string) : (x ++ y) ++ z = x ++ (y ++ z).
Proof. induction x as [|a x IH]; [reflexivity|]. rewrite !str_app_cons, IH. reflexivity. Qed.

Lemma str_app_length (x y : string) :
  String.length (x ++ y) = (String.length x + String.length y)%nat.
Proof. induction x as [|a x IH]; [reflexivity|]. rewrite str_app_cons. simpl. lia. Qed.

Lemma decode_width (s : string) (r : Z) (w : nat) :
  s <> EmptyString -> DecodeRuneInString s = (r, w) ->
  (1 <= w <= String.length s)%nat.
Proof.
  intros Hne Hd. destruct s as [|c0 s]; [congruence|].
  cbv [DecodeRuneInString] in Hd.
  repeat (case_match; subst); injection Hd as <- <-; simpl; lia.
Qed.

Lemma decode_valid (s : string) (r : Z) (w : nat) :
  s <> EmptyString -> DecodeRuneInString s = (r, w) -> valid_rune r.
Proof.
  intros Hne Hd.
  destruct (decide (r = RuneError /\ w = 1%nat)) as [[-> _]|Hn].
  - unfold valid_rune, RuneError, MaxRune, surrogateMin, surrogateMax. lia.
  - exact (proj1 (decode_valid_bytes s r w Hne Hd Hn)).
Qed.

Lemma decode_app_ascii (a b : string) :
  a <> EmptyString -> ascii_start b ->
  DecodeRuneInString (a ++ b) = DecodeRuneInString a.
Proof.
  intros Hne Hb. destruct b as [|c b]; [now rewrite str_app_nil_r|].
  simpl in Hb. destruct a as [|c0 [|c1 [|c2 [|c3 a]]]]; [congruence|..];
    cbv [DecodeRuneInString append];
    (destruct (first (byte_val c0)) as [| |sz lo hi] eqn:Hf; try reflexivity);
    apply first_FSeq in Hf; assert (Hlo : 0x80 <= lo) by lia; clear Hf;
    repeat match goal with
    | |- context [byte_val c <? ?y] =>
        replace (byte_val c <? y) with true
          by (symmetry; apply Z.ltb_lt; unfold locb; lia)
    end; cbn [orb]; reflexivity.
Qed.

Lemma str_take_drop_length (n : nat) (s : string) :
  (n <= String.length s)%nat ->
  String.length (str_drop n s) = (String.length s - n)%nat.
Proof.
  revert s. induction n as [|n IH]; intros s Hn; [simpl; lia|].
  destruct s as [|c s]; simpl in *; [lia|]. apply IH. lia.
Qed.

Lemma str_drop_app (n : nat) (a b : string) :
  (n <= String.length a)%nat -> str_drop n (a ++ b) = str_drop n a ++ b.
Proof.
  revert a. induction n as [|n IH]; intros a Hn; [reflexivity|].
  destruct a as [|c a]; simpl in Hn; [lia|]. rewrite str_app_cons. simpl. apply IH. lia.
Qed.

Lemma str_drop_length_app (x y : string) :
  str_drop (String.length x) (x ++ y) = y.
Proof. induction x as [|a x IH]; [reflexivity|]. rewrite str_app_cons. simpl. exact IH. Qed.

Lemma runes_fuel_enough (n m : nat) (s : string) :
  (String.length s <= n)%nat -> (String.length s <= m)%nat ->
  runes_fuel n s = runes_fuel m s.
Proof.
  revert m s. induction n as [|n IH]; intros m s Hn Hm.
  - destruct s; simpl in Hn; [|lia]. destruct m; reflexivity.
  - destruct s as [|c s']; [destruct m; reflexivity|].
    destruct m as [|m]; [simpl in Hm; lia|].
    cbn [runes_fuel].
    destruct (DecodeRuneInString (String c s')) as [r w] eqn:Hd.
    pose proof (decode_width (String c s') r w ltac:(congruence) Hd) as Hw.
    f_equal. apply IH; rewrite str_take_drop_length; lia.
Qed.

Lemma runes_unfold (s : string) (r : Z) (w : nat) :
  s <> EmptyString -> DecodeRuneInString s = (r, w) ->
  runes s = r :: runes (str_drop w s).
Proof.
  intros Hne Hd. pose proof (decode_width s r w Hne Hd) as Hw.
  unfold runes. destruct s as [|c s']; [congruence|].
  cbn [String.length runes_fuel]. rewrite Hd. f_equal.
  apply runes_fuel_enough; rewrite str_take_drop_length; simpl in *; lia.
Qed.

Lemma runes_empty : runes EmptyString = [].
Proof. reflexivity. Qed.

(** Strong induction on the length of a string. *)
Lemma string_len_ind (P : string -> Prop) :
  (forall s, (forall t, (String.length t < String.length s)%nat -> P t) -> P s) ->
  forall s, P s.
Proof.
  intros H s. remember (String.length s) as n eqn:En.
  revert s En. induction (lt_wf n) as [n _ IH]. intros s ->.
  apply H. intros t Ht. exact (IH _ Ht t eq_refl).
Qed.

Lemma runes_app_ascii (a b : string) :
  ascii_start b -> runes (a ++ b) = app (runes a) (runes b).
Proof.
  intros Hb. induction a as [a IH] using string_len_ind.
  destruct (decide (a = EmptyString)) as [->|Hne]; [reflexivity|].
  destruct (DecodeRuneInString a) as [r w] eqn:Hd.
  pose proof (decode_width a r w Hne Hd) as Hw.
  assert (Hne' : a ++ b <> EmptyString)
    by (destruct a; [congruence|]; rewrite str_app_cons; congruence).
  rewrite (runes_unfold (a ++ b) r w Hne') by (rewrite decode_app_ascii; auto).
  rewrite (runes_unfold a r w Hne Hd). cbn [app]. f_equal.
  rewrite str_drop_app by lia. apply IH. rewrite str_take_drop_length; lia.
Qed.

Lemma EncodeRune_nonempty (r : Z) : valid_rune r -> EncodeRune r <> EmptyString.
Proof.
  intros Hr. pose proof (EncodeRune_valid_length r Hr).
  destruct (EncodeRune r); simpl in *; [lia|congruence].
Qed.

Lemma enc_cons (r : Z) (rs : list Z) : enc (r :: rs) = EncodeRune r ++ enc rs.
Proof. reflexivity. Qed.

Lemma runes_enc (rs : list Z) : Forall valid_rune rs -> runes (enc rs) = rs.
Proof.
  induction 1 as [|r rs Hr Hrs IH]; [reflexivity|]. rewrite enc_cons.
  assert (Hne : EncodeRune r ++ enc rs <> EmptyString)
    by (pose proof (EncodeRune_nonempty r Hr); destruct (EncodeRune r);
        [congruence|]; rewrite str_app_cons; congruence).
  rewrite (runes_unfold _ r (String.length (EncodeRune r)) Hne)
    by (apply decode_EncodeRune; exact Hr).
  rewrite str_drop_length_app. now rewrite IH.
Qed.

Lemma runes_valid (s : string) : Forall valid_rune (runes s).
Proof.
  induction s as [s IH] using string_len_ind.
  destruct (decide (s = EmptyString)) as [->|Hne]; [constructor|].
  destruct (DecodeRuneInString s) as [r w] eqn:Hd.
  pose proof (decode_width s r w Hne Hd) as Hw.
  rewrite (runes_unfold s r w Hne Hd). constructor.
  - exact (decode_valid s r w Hne Hd).
  - apply IH. rewrite str_take_drop_length; lia.
Qed.

Lemma enc_app (xs ys : list Z) : enc (app xs ys) = enc xs ++ enc ys.
Proof.
  induction xs as [|x xs IH]; [reflexivity|]. cbn [app].
  rewrite !enc_cons, IH. now rewrite str_app_assoc.
Qed.

(** [strings.Map] is the encoding of the mapped runes, for a mapping that
    keeps valid runes non-negative. *)
Lemma map_fuel_enc (f : Z -> Z) (n : nat) (s : string) :
  (forall r, valid_rune r -> 0 <= f r) ->
  map_fuel f n s = enc (map f (runes_fuel n s)).
Proof.
  intros Hf. revert s. induction n as [|n IH]; intros s; [reflexivity|].
  destruct s as [|c0 s']; [reflexivity|].
  cbn [map_fuel runes_fuel].
  destruct (DecodeRuneInString (String c0 s')) as [c w] eqn:Hd.
  assert (Hne : String c0 s' <> EmptyString) by congruence.
  cbn [map]. rewrite enc_cons, IH. f_equal.
  pose proof (decode_valid _ c w Hne Hd) as Hv.
  destruct ((f c =? c) && negb ((c =? RuneError) && (w =? 1)%nat))%bool eqn:Hc.
  - apply andb_true_iff in Hc as [Hfc Hn]. apply Z.eqb_eq in Hfc. rewrite Hfc.
    refine (proj2 (decode_valid_bytes _ c w Hne Hd _)).
    intros [Hc1 Hc2]. subst c w. revert Hn. cbv. discriminate.
  - rewrite (proj2 (Z.leb_le 0 (f c))) by (apply Hf; exact Hv). reflexivity.
Qed.

Lemma strings_Map_enc (f : Z -> Z) (s : string) :
  (forall r, valid_rune r -> 0 <= f r) ->
  strings_Map f s = enc (map f (runes s)).
Proof. intros Hf. apply map_fuel_enc, Hf. Qed.

Lemma z_all_spec (f : Z -> bool) (lo : Z) (n : nat) :
  z_all f lo n = true -> forall r, lo <= r < lo + Z.of_nat n -> f r = true.
Proof.
  revert lo. induction n as [|n IH]; intros lo H r Hr; [lia|].
  simpl in H. apply andb_true_iff in H as [H1 H2].
  destruct (Z.eq_dec r lo) as [->|Hne]; [exact H1|].
  apply (IH (lo + 1)); [exact H2|lia].
Qed.

Lemma valid_b_spec (r : Z) : valid_b r = true <-> valid_rune r.
Proof.
  unfold valid_b, valid_rune. rewrite !andb_true_iff, negb_true_iff, andb_false_iff.
  rewrite !Z.leb_le, !Z.leb_gt. lia.
Qed.

Lemma ascii_lower_ok : z_all lower_ok 0 128 = true.
Proof. vm_compute. reflexivity. Qed.

Lemma ranges_lower_ok : forallb range_ok CaseRanges = true.
Proof. vm_compute. reflexivity. Qed.

Lemma find_range_some (r : Z) (l : list CaseRange) (cr : CaseRange) :
  find_range r l = Some cr -> In cr l /\ cr_lo cr <= r <= cr_hi cr.
Proof.
  induction l as [|cr' l IH]; simpl; [discriminate|].
  destruct ((cr_lo cr' <=? r) && (r <=? cr_hi cr')) eqn:Hc.
  - intros [= <-]. apply andb_true_iff in Hc as [H1 H2].
    apply Z.leb_le in H1. apply Z.leb_le in H2. auto.
  - intros H. destruct (IH H). auto.
Qed.

Lemma lower_ok_valid (r : Z) : valid_rune r -> lower_ok r = true.
Proof.
  intros Hr. pose proof ascii_lower_ok as Ta. pose proof ranges_lower_ok as Tr.
  destruct (Z.leb_spec r MaxASCII) as [Ha|Ha].
  { apply (z_all_spec _ _ _ Ta). unfold valid_rune, MaxASCII in *. lia. }
  destruct (find_range r CaseRanges) as [cr|] eqn:Hf.
  - apply find_range_some in Hf as [Hin Hrng].
    rewrite forallb_forall in Tr. specialize (Tr cr Hin).
    apply (z_all_spec _ _ _ Tr). rewrite Z2Nat.id; lia.
  - assert (HL : unicode_ToLower r = r).
    { unfold unicode_ToLower. rewrite (proj2 (Z.leb_gt _ _) Ha), Hf. reflexivity. }
    unfold lower_ok. rewrite !HL, Z.eqb_refl, andb_true_r. now apply valid_b_spec.
Qed.

Lemma ToLower_rune_valid (r : Z) : valid_rune r -> valid_rune (unicode_ToLower r).
Proof.
  intros Hr. pose proof (lower_ok_valid r Hr) as H. unfold lower_ok in H.
  apply andb_true_iff in H as [H _]. now apply valid_b_spec.
Qed.

Lemma ToLower_rune_idem (r : Z) :
  valid_rune r -> unicode_ToLower (unicode_ToLower r) = unicode_ToLower r.
Proof.
  intros Hr. pose proof (lower_ok_valid r Hr) as H. unfold lower_ok in H.
  apply andb_true_iff in H as [_ H]. now apply Z.eqb_eq.
Qed.

Lemma ToLower_rune_ascii (b : Z) : 0 <= b < 0x80 ->
  unicode_ToLower b = if (65 <=? b) && (b <=? 90) then b + 32 else b.
Proof.
  intros Hb. unfold unicode_ToLower. rewrite (proj2 (Z.leb_le b MaxASCII)); [reflexivity|].
  unfold MaxASCII. lia.
Qed.

Lemma runes_ascii_cons (c : ascii) (s : string) :
  byte_val c < 0x80 -> runes (String c s) = byte_val c :: runes s.
Proof.
  intros Hc. apply (runes_unfold (String c s) (byte_val c) 1); [congruence|].
  cbv [DecodeRuneInString]. unfold first. rewrite (proj2 (Z.ltb_lt _ _) Hc).
  reflexivity.
Qed.

Lemma ToLowerASCII_enc (s : string) :
  isASCII s = true -> enc (map unicode_ToLower (runes s)) = ToLowerASCII s.
Proof.
  induction s as [|c s IH]; [reflexivity|].
  intros H. simpl in H. apply andb_true_iff in H as [Hc Hs].
  apply Z.ltb_lt in Hc. unfold RuneSelf in Hc. pose proof (byte_val_range c).
  rewrite runes_ascii_cons by exact Hc. cbn [map]. rewrite enc_cons, IH by exact Hs.
  rewrite ToLower_rune_ascii by lia. cbn [ToLowerASCII]. unfold lower_ascii.
  destruct ((65 <=? byte_val c) && (byte_val c <=? 90)) eqn:Hu.
  - apply andb_true_iff in Hu as [Hu1 Hu2]. apply Z.leb_le in Hu1. apply Z.leb_le in Hu2.
    rewrite EncodeRune_1 by lia. reflexivity.
  - rewrite EncodeRune_1 by lia. rewrite byte_byte_val. reflexivity.
Qed.

Lemma ToLowerASCII_noupper (s : string) : hasUpper s = false -> ToLowerASCII s = s.
Proof.
  induction s as [|c s IH]; [reflexivity|].
  intros H. simpl in H. apply orb_false_iff in H as [Hc Hs].
  cbn [ToLowerASCII]. unfold lower_ascii. rewrite Hc, IH by exact Hs. reflexivity.
Qed.

(** [strings.ToLower] is the encoding of the lowercased runes. *)
Lemma ToLower_enc (s : string) : ToLower s = enc (map unicode_ToLower (runes s)).
Proof.
  unfold ToLower. destruct (isASCII s) eqn:Ha.
  - rewrite ToLowerASCII_enc by exact Ha.
    destruct (hasUpper s) eqn:Hu; [reflexivity|].
    simpl. now rewrite ToLowerASCII_noupper.
  - apply strings_Map_enc. intros r Hr.
    pose proof (ToLower_rune_valid r Hr) as H. unfold valid_rune in H. lia.
Qed.

Lemma ToLower_idem (s : string) : ToLower (ToLower s) = ToLower s.
Proof.
  rewrite (ToLower_enc s), ToLower_enc.
  pose proof (runes_valid s) as Hv.
  rewrite runes_enc.
  - rewrite map_map. f_equal. apply map_ext_in. intros r Hr.
    rewrite List.Forall_forall in Hv. apply ToLower_rune_idem, Hv, Hr.
  - rewrite List.Forall_forall in *. intros r Hr. apply in_map_iff in Hr as (x & <- & Hx).
    apply ToLower_rune_valid, Hv, Hx.
Qed.

Lemma ToLower_slash (p t : string) :
  ToLower (p ++ "/" ++ t ++ "/full") = ToLower p ++ "/" ++ ToLower t ++ "/full".
Proof.
  rewrite !ToLower_enc.
  rewrite runes_app_ascii by (simpl; reflexivity).
  change ("/" ++ t ++ "/full") with (String "/" (t ++ "/full")).
  rewrite runes_ascii_cons by reflexivity.
  rewrite runes_app_ascii by (simpl; reflexivity).
  rewrite map_app. cbn [map]. rewrite map_app, !enc_app, enc_cons, enc_app.
  reflexivity.
Qed.

Close Scope Z_scope.

(** C9: the whole-collection key is [{prefix}/{table}/full] with prefix
    and table lowercased, and it is already in lower case (the same
    prefix and table always give the same key, [CacheKey] being a
    function of them). *)
Theorem CacheKey_format (prefix table : string) :
  FullRedisCache.CacheKey prefix table
    = ToLower prefix ++ "/" ++ ToLower table ++ "/full"
  /\ ToLower (FullRedisCache.CacheKey prefix table)
     = FullRedisCache.CacheKey prefix table.
Proof.
  unfold FullRedisCache.CacheKey. split.
  - apply ToLower_slash.
  - apply ToLower_idem.
Qed.

(** ** Proofs: RedisJson *)

Section RedisJsonProofs.
  Context {T : Type} `{Serializer T} `{Zero T}.

  (** C2 (amended): for any entity type and codec, after [SetNull k] the
      reply of [GetJson k] is the codec's decoding of the sentinel
      ["null"] (value and error), reported as found; in particular, when
      the codec decodes JSON [null] into the zero value without error,
      [GetJson] returns [(zero, true, nil)]. *)
Theorem GetJson_after_SetNull (k : string) (s : redis) :
    snd (RedisJson.GetJson k (fst (RedisJson.SetNull k s)))
      = (fst (Unmarshal "null" zero), true, snd (Unmarshal "null" zero))
    /\ (Unmarshal "null" zero = (zero, None) ->
        snd (RedisJson.GetJson k (fst (RedisJson.SetNull k s)))
          = (zero, true, None)).
  Proof.
    unfold RedisJson.GetJson, RedisJson.SetNull, Redis.get, Redis.setex; simpl.
    rewrite lookup_insert_eq. destruct (Unmarshal "null" zero) as [v e].
    split; [reflexivity|]. intros [= -> ->]. reflexivity.
  Qed.

  (** C8: [SetJson k e] then [GetJson k] returns [(e, true, nil)] for an
      entity the codec round-trips. *)
Theorem SetJson_GetJson_roundtrip (k : string) (e : T) (y : string)
      (s : redis)
      (Hm : Marshal e = (y, None))
      (Hu : Unmarshal y zero = (e, None)) :
    snd (RedisJson.GetJson k (fst (RedisJson.SetJson k e s)))
      = (e, true, None).
  Proof.
    unfold RedisJson.SetJson. rewrite Hm. simpl.
    unfold RedisJson.GetJson, Redis.get, Redis.setex; simpl.
    rewrite lookup_insert_eq, Hu. reflexivity.
  Qed.
End RedisJsonProofs.

(** C2: counterexample -- for the [user] entity, [SetNull "k"] then
    [GetJson "k"] answers found = true, not [(zero, false, nil)]. *)
Lemma GetJson_after_SetNull_found :
  snd (RedisJson.GetJson (T := user) "k" (fst (RedisJson.SetNull "k" empty_redis)))
    = (mkUser "" "", true, None)
  /\ snd (RedisJson.GetJson (T := user) "k" (fst (RedisJson.SetNull "k" empty_redis)))
    <> (mkUser "" "", false, None).
Proof. split; [reflexivity | discriminate]. Qed.

Lemma GetJson_after_SetNull_witness :
  Unmarshal (A := user) "null" zero = (zero, None)
  /\ snd (RedisJson.GetJson (T := user) "k" (fst (RedisJson.SetNull "k" empty_redis)))
     = (zero, true, None).
Proof.
  split; [reflexivity|].
  apply (proj2 (GetJson_after_SetNull "k" empty_redis)). reflexivity.
Defined.

Lemma SetJson_GetJson_roundtrip_witness :
  snd (RedisJson.GetJson "app/users/id/a"
         (fst (RedisJson.SetJson "app/users/id/a" (mkUser "a" "bob") empty_redis)))
    = (mkUser "a" "bob", true, None).
Proof.
  apply (SetJson_GetJson_roundtrip "app/users/id/a" (mkUser "a" "bob")
           (user_json (mkUser "a" "bob"))); vm_compute; reflexivity.
Defined.

(** ** Proofs: MSetJson *)

Section MSetJsonProofs.
  Context {V : Type} `{Serializer V}.

Lemma marshal_all_error (objMap : list (string * V)) :
    snd (RedisJson.marshal_all objMap) = first_marshal_error objMap.
  Proof.
    induction objMap as [|[k v] rest IH]; simpl; [reflexivity|].
    destruct (Marshal v) as [y [e|]]; simpl; [reflexivity|].
    destruct (RedisJson.marshal_all rest) as [[js ks] e']; exact IH.
  Qed.

Lemma marshal_all_ok (objMap : list (string * V)) :
    first_marshal_error objMap = None ->
    RedisJson.marshal_all objMap
      = (map (fun p => (fst p, fst (Marshal (snd p)))) objMap,
         map fst objMap, None).
  Proof.
    induction objMap as [|[k v] rest IH]; simpl; [reflexivity|].
    destruct (Marshal v) as [y [e|]]; simpl; [discriminate|].
    intros Hr. rewrite (IH Hr). reflexivity.
  Qed.

Lemma expire_all_effect (keys : list string) (s : redis) :
    foldl (fun s k => Redis.expire k s) s keys
      = mkRedis (kv s) (hash s) (app (rlog s) (map CExpire keys)).
  Proof.
    revert s. induction keys as [|k keys IH]; intros s; simpl.
    - destruct s; simpl; now rewrite app_nil_r.
    - rewrite IH. unfold Redis.expire, Redis.issue; simpl.
      now rewrite <- app_assoc.
  Qed.

  (** C7: [MSetJson] marshals every value before writing: if a value fails
      to marshal, the first such error is returned and the server is left
      as it was (no command sent); otherwise one [MSET] of all the pairs
      is sent, followed by one [EXPIRE] per key, and nothing else (an
      empty batch sends nothing). *)
Theorem MSetJson_serialize_then_write (objMap : list (string * V))
      (s : redis) :
    (forall e, first_marshal_error objMap = Some e ->
       RedisJson.MSetJson objMap s = (s, Some e))
    /\ (first_marshal_error objMap = None ->
       let js := map (fun p => (fst p, fst (Marshal (snd p)))) objMap in
       snd (RedisJson.MSetJson objMap s) = None
       /\ rlog (fst (RedisJson.MSetJson objMap s))
          = app (rlog s) (match objMap with
                          | [] => []
                          | _ => CMSet js :: map (fun p => CExpire (fst p)) objMap
                          end)
       /\ kv (fst (RedisJson.MSetJson objMap s))
          = foldl (fun m p => <[fst p := snd p]> m) (kv s)
                  (match objMap with [] => [] | _ => js end)).
  Proof.
    split.
    - intros e He. destruct objMap as [|p rest]; [discriminate|].
      unfold RedisJson.MSetJson.
      pose proof (marshal_all_error (p :: rest)) as Hs. rewrite He in Hs.
      destruct (RedisJson.marshal_all (p :: rest)) as [[js ks] e'].
      simpl in Hs. subst e'. reflexivity.
    - intros Hn js. destruct objMap as [|p rest].
      + simpl. rewrite app_nil_r. auto.
      + unfold RedisJson.MSetJson. rewrite (marshal_all_ok _ Hn).
        unfold RedisJson.Expires.
        cbn [map]. rewrite expire_all_effect. cbn -[foldl map].
        repeat split; try reflexivity.
        rewrite <- app_assoc. cbn. rewrite map_map. reflexivity.
  Qed.
End MSetJsonProofs.

(** ** Proofs: RedisMongo *)

Lemma UniqueStrings_elem (l : list string) (x : string) :
  x ∈ UniqueStrings l <-> x ∈ l.
Proof.
  induction l as [|y l IH]; simpl; [reflexivity|].
  rewrite !elem_of_cons, list_elem_of_filter, IH.
  destruct (decide (x = y)); tauto.
Qed.

Lemma UniqueStrings_NoDup (l : list string) : NoDup (UniqueStrings l).
Proof.
  induction l as [|y l IH]; simpl; constructor.
  - rewrite list_elem_of_filter. tauto.
  - now apply NoDup_filter.
Qed.

Section RedisMongoProofs.
  Context {T : Type} `{Zero T} `{Table T} `{MongoDoc T}.
  Variables prefix table idField : string.

Lemma Get_found (id : string) (d : T) (m : mstate T) :
    m_fail m OpFind = None -> m_coll m !! id = Some d ->
    RedisMongo.Get id m = (d, true, None).
  Proof.
    intros Hf Hl. unfold RedisMongo.Get, Mongo.FindOne. now rewrite Hf, Hl.
  Qed.

  (** C1: updating an entity whose index set goes from [{i1, i2}] to
      [{i2, i3}] (in whatever order and multiplicity [ListIndexes] lists
      them) deletes, in one [DEL], a duplicate-free list of keys made of
      the primary key and the keys of [i1], [i2] and [i3], and nothing
      else; the call reports one matched row and no error. *)
Theorem Update_invalidates_old_and_new_indexes
      (id : string) (vs : list (string * string)) (m : mstate T)
      (old : T) (i1 i2 i3 : Index)
      (Hid : IsNullID id = false)
      (Hfind : m_fail m OpFind = None) (Hupd : m_fail m OpUpdate = None)
      (Hold : m_coll m !! id = Some old) (Hoid : GetID old = id)
      (Hi_old : forall i, i ∈ ListIndexes old <-> i = i1 \/ i = i2)
      (Hi_new : forall i, i ∈ ListIndexes (ApplySet old vs) <-> i = i2 \/ i = i3) :
    exists ks,
      RedisMongo.Update prefix table idField id (UVMap vs) m
        = (mkM (<[id := ApplySet old vs]> (m_coll m)) (m_fail m) (m_oid m)
               (Redis.del ks (m_red m)), (1%Z, None))
      /\ NoDup ks
      /\ (forall k, k ∈ ks <->
            k = MakeCacheKey prefix table (NewIndex idField id)
            \/ k = MakeCacheKey prefix table i1
            \/ k = MakeCacheKey prefix table i2
            \/ k = MakeCacheKey prefix table i3).
  Proof.
    unfold RedisMongo.Update. rewrite Hid, (Get_found id old m Hfind Hold).
    unfold Mongo.UpdateOne. rewrite Hupd, Hold.
    rewrite (Get_found id (ApplySet old vs)); simpl;
      [| exact Hfind | apply lookup_insert_eq].
    unfold RedisMongo.ClearCache, Merge. rewrite Hoid, Hid.
    eexists. split; [reflexivity|]. split; [apply UniqueStrings_NoDup|].
    intros k. rewrite UniqueStrings_elem. cbn [app].
    rewrite elem_of_cons, (list_elem_of_In (map _ _) k), in_map_iff. split.
    - intros [->|(x & <- & Hx)]; [now left|].
      apply in_app_iff in Hx as [Hx|Hx]; apply list_elem_of_In in Hx;
        [apply Hi_old in Hx|apply Hi_new in Hx]; destruct Hx as [->| ->]; auto.
    - intros [->|[->|[->| ->]]]; [now left|..]; right.
      + exists i1. split; [reflexivity|]. apply in_app_iff. left.
        apply list_elem_of_In, Hi_old. now left.
      + exists i2. split; [reflexivity|]. apply in_app_iff. left.
        apply list_elem_of_In, Hi_old. now right.
      + exists i3. split; [reflexivity|]. apply in_app_iff. right.
        apply list_elem_of_In, Hi_new. now right.
  Qed.

  (** C10 (Mongo part): a null ID makes [Update] return [(0, nil)] with the
      state untouched. *)
Lemma RedisMongo_Update_null (id : string) (values : UpdateValues)
      (m : mstate T) :
    IsNullID id = true ->
    RedisMongo.Update prefix table idField id values m = (m, (0%Z, None)).
  Proof. intros Hn. unfold RedisMongo.Update. now rewrite Hn. Qed.

Lemma AssignID_state (t t' : T) (m m' : mstate T) :
    RedisMongo.AssignID idField t m = Returned (t', m') ->
    m_red m' = m_red m /\ m_coll m' = m_coll m /\ m_fail m' = m_fail m.
  Proof.
    unfold RedisMongo.AssignID. destruct (IsNullID (GetID t)).
    - destruct (SetField t idField (NewObjectIDHex (m_oid m))); [|discriminate].
      intros [= <- <-]. auto.
    - intros [= <- <-]. auto.
  Qed.

Lemma RedisMongo_Create_error (t t' : T) (m m' : mstate T) (e : err) :
    RedisMongo.AssignID idField t m = Returned (t', m') ->
    snd (Mongo.InsertOne t' m') = Some e ->
    exists m'', RedisMongo.Create prefix table idField (Some t) m
                  = Returned (m'', Some t', Some e)
                /\ m_red m'' = m_red m /\ m_coll m'' = m_coll m.
  Proof.
    intros Ha Hi. destruct (AssignID_state t t' m m' Ha) as (Hr & Hc & _).
    unfold RedisMongo.Create. rewrite Ha.
    unfold Mongo.InsertOne in *. destruct (m_fail m' OpInsert) as [e'|].
    - simpl in Hi. injection Hi as ->. exists m'. auto.
    - destruct (m_coll m' !! GetID t'); simpl in Hi; [|discriminate].
      injection Hi as <-. exists m'. auto.
  Qed.

Lemma RedisMongo_Update_error (id : string) (vs : list (string * string))
      (m : mstate T) (e : err) :
    IsNullID id = false ->
    snd (RedisMongo.Get id m) = None ->
    snd (Mongo.UpdateOne id vs m) = Some e ->
    RedisMongo.Update prefix table idField id (UVMap vs) m = (m, (0%Z, Some e)).
  Proof.
    intros Hn Hg Hu. unfold RedisMongo.Update. rewrite Hn.
    destruct (RedisMongo.Get id m) as [[old ex] ge]. simpl in Hg. subst ge.
    unfold Mongo.UpdateOne in *.
    destruct (m_fail m OpUpdate) as [e'|]; simpl in Hu.
    - now inversion Hu.
    - destruct (m_coll m !! id); discriminate.
  Qed.

Lemma RedisMongo_Delete_error (ids : list string) (m : mstate T) (e : err) :
    ids <> [] ->
    snd (RedisMongo.List ids m) = None ->
    snd (Mongo.DeleteMany ids m) = Some e ->
    RedisMongo.Delete prefix table idField ids m = (m, (0%Z, Some e)).
  Proof.
    intros Hne Hl Hd. unfold RedisMongo.Delete.
    destruct ids as [|i ids]; [congruence|].
    destruct (RedisMongo.List (i :: ids) m) as [objs le]. simpl in Hl. subst le.
    unfold Mongo.DeleteMany in *.
    destruct (m_fail m OpDelete) as [e'|]; simpl in Hd; [|discriminate].
    now inversion Hd.
  Qed.
End RedisMongoProofs.

(** ** Proofs: FullRedisCache *)

Section FullRedisCacheProofs.
  Context {D T V : Type} `{Serializer T} `{Zero T} `{Table T}
          `{FullDBCache D T V}.
  Variables prefix table : string.

Lemma Full_Create_error (r r' : T) (w : fstate D) (db' : D) (e : err) :
    db_Create r (f_db w) = (db', r', Some e) ->
    FullRedisCache.Create prefix table r w = (mkF db' (f_red w), r', Some e).
  Proof. intros Hc. unfold FullRedisCache.Create. now rewrite Hc. Qed.

Lemma Full_Update_error (id : string) (v : V) (w : fstate D) (db' : D)
      (n : Z) (e : err) :
    IsNullID id = false ->
    db_Update id v (f_db w) = (db', n, Some e) ->
    FullRedisCache.Update prefix table id v w = (mkF db' (f_red w), (0%Z, Some e)).
  Proof. intros Hn Hu. unfold FullRedisCache.Update. now rewrite Hn, Hu. Qed.

Lemma Full_Delete_error (ids : list string) (w : fstate D) (db' : D)
      (n : Z) (e : err) :
    db_Delete ids (f_db w) = (db', n, Some e) ->
    FullRedisCache.Delete prefix table ids w = (mkF db' (f_red w), (0%Z, Some e)).
  Proof. intros Hd. unfold FullRedisCache.Delete. now rewrite Hd. Qed.

Lemma Full_Update_null (id : string) (v : V) (w : fstate D) :
    IsNullID id = true ->
    FullRedisCache.Update prefix table id v w = (w, (0%Z, None)).
  Proof. intros Hn. unfold FullRedisCache.Update. now rewrite Hn. Qed.
End FullRedisCacheProofs.

(** C4: a rejected backend write is returned as the error of the call and
    the Redis server is left exactly as it was (no command sent): for
    [FullRedisCache.Create], [Update] (non-null ID) and [Delete], and for
    [RedisMongo.Create] (once the ID assignment has returned; the write
    then fails and no key is deleted), [Update] and [Delete] (whose reads
    before the write succeeded). *)
Theorem backend_write_error_leaves_cache
    {D T V : Type} `{Serializer T} `{Zero T} `{Table T} `{FullDBCache D T V}
    `{MongoDoc T} (prefix table idField : string) :
  (forall (r r' : T) (w : fstate D) db' e,
     db_Create r (f_db w) = (db', r', Some e) ->
     FullRedisCache.Create prefix table r w = (mkF db' (f_red w), r', Some e))
  /\ (forall id (v : V) (w : fstate D) db' n e,
     IsNullID id = false -> db_Update id v (f_db w) = (db', n, Some e) ->
     FullRedisCache.Update prefix table id v w
       = (mkF db' (f_red w), (0%Z, Some e)))
  /\ (forall ids (w : fstate D) db' n e,
     db_Delete ids (f_db w) = (db', n, Some e) ->
     FullRedisCache.Delete prefix table ids w
       = (mkF db' (f_red w), (0%Z, Some e)))
  /\ (forall (t t' : T) (m m' : mstate T) e,
     RedisMongo.AssignID idField t m = Returned (t', m') ->
     snd (Mongo.InsertOne t' m') = Some e ->
     exists m'', RedisMongo.Create prefix table idField (Some t) m
                   = Returned (m'', Some t', Some e)
                 /\ m_red m'' = m_red m /\ m_coll m'' = m_coll m)
  /\ (forall id vs (m : mstate T) e,
     IsNullID id = false -> snd (RedisMongo.Get id m) = None ->
     snd (Mongo.UpdateOne id vs m) = Some e ->
     RedisMongo.Update prefix table idField id (UVMap vs) m = (m, (0%Z, Some e)))
  /\ (forall ids (m : mstate T) e,
     ids <> [] -> snd (RedisMongo.List ids m) = None ->
     snd (Mongo.DeleteMany ids m) = Some e ->
     RedisMongo.Delete prefix table idField ids m = (m, (0%Z, Some e))).
Proof.
  split; [intros; now apply Full_Create_error|].
  split; [intros id v w db' n e Hn Hu; now apply (Full_Update_error _ _ id v w db' n e)|].
  split; [intros ids w db' n e Hd; now apply (Full_Delete_error _ _ ids w db' n e)|].
  split; [intros t t' m m' e Ha Hi; eapply RedisMongo_Create_error; eauto|].
  split; [intros; now apply RedisMongo_Update_error|].
  intros; now apply RedisMongo_Delete_error.
Qed.

(** C10: with a null ID, [Update] returns [(0, nil)] and leaves the state
    (backend and cache) as it was, in [FullRedisCache] and in
    [RedisMongo]. *)
Theorem Update_null_id_noop
    {D T V : Type} `{Serializer T} `{Zero T} `{Table T} `{FullDBCache D T V}
    `{MongoDoc T} (prefix table idField id : string) (v : V)
    (values : UpdateValues) (w : fstate D) (m : mstate T) :
  IsNullID id = true ->
  FullRedisCache.Update prefix table id v w = (w, (0%Z, None))
  /\ RedisMongo.Update prefix table idField id values m = (m, (0%Z, None)).
Proof.
  intros Hn. split; [now apply Full_Update_null | now apply RedisMongo_Update_null].
Qed.

(** ** Concrete runs *)

Definition article_store : mstate article :=
  mkM {["a1" := mkArticle "a1" ["go"; "redis"]]} (fun _ => None) 0
      (mkRedis {["app/articles/id/a1" := "{}"; "app/articles/tags/go" := "{}"]}
               ∅ []).

Lemma Update_invalidates_old_and_new_indexes_witness :
  exists ks,
    RedisMongo.Update "app" "articles" "id" "a1"
      (UVMap [("tags.0", "mongo"); ("tags.1", "redis")]) article_store
      = (mkM (<["a1" := ApplySet (mkArticle "a1" ["go"; "redis"])
                               [("tags.0", "mongo"); ("tags.1", "redis")]]>
                (m_coll article_store))
             (m_fail article_store) (m_oid article_store)
             (Redis.del ks (m_red article_store)), (1%Z, None))
    /\ NoDup ks
    /\ (forall k, k ∈ ks <->
          k = MakeCacheKey "app" "articles" (NewIndex "id" "a1")
          \/ k = MakeCacheKey "app" "articles" [("tags", "go")]
          \/ k = MakeCacheKey "app" "articles" [("tags", "redis")]
          \/ k = MakeCacheKey "app" "articles" [("tags", "mongo")]).
Proof.
  apply (Update_invalidates_old_and_new_indexes "app" "articles" "id" "a1"
           [("tags.0", "mongo"); ("tags.1", "redis")] article_store
           (mkArticle "a1" ["go"; "redis"])
           [("tags", "go")] [("tags", "redis")] [("tags", "mongo")]);
    try (vm_compute; reflexivity);
    intros i;
    match goal with
    | |- i ∈ ?l <-> _ => let l' := eval vm_compute in l in change l with l'
    end;
    rewrite !elem_of_cons, elem_of_nil; tauto.
Defined.

Lemma Update_null_id_noop_witness :
  IsNullID "" = true
  /\ FullRedisCache.Update "app" "users" "" [("name", "carl")]
       (mkF (mkMemdb [mkUser "a" "bob"] None None) empty_redis)
     = (mkF (mkMemdb [mkUser "a" "bob"] None None) empty_redis, (0%Z, None))
  /\ RedisMongo.Update "app" "users" "id" "" UVOther
       (mkM {["a" := mkUser "a" "bob"]} (fun _ => None) 0 empty_redis)
     = (mkM {["a" := mkUser "a" "bob"]} (fun _ => None) 0 empty_redis,
        (0%Z, None)).
Proof.
  split; [reflexivity|].
  apply (Update_null_id_noop "app" "users" "id" "" [("name", "carl")] UVOther).
  reflexivity.
Defined.

(** A users table whose writes succeed while its [ListAll] fails, with a
    cached snapshot holding user "a". *)
Definition users_down_after_write : fstate memdb :=
  mkF (mkMemdb [mkUser "a" "bob"] None (Some "dial tcp: connection refused"))
      (mkRedis ∅ {["app/users/full" := {["a" := user_json (mkUser "a" "bob")]}]} []).

(** C3: [Create] returns the error of the reload that follows the write,
    but [Save], [Update] and [Delete] drop it: each returns a nil error
    although the reload after its successful write failed (the snapshot
    keeps the old user). *)
Theorem Full_mutations_drop_reload_error :
  snd (FullRedisCache.Create "app" "users" (mkUser "b" "dan") users_down_after_write)
    = Some "dial tcp: connection refused"
  /\ snd (FullRedisCache.Save "app" "users" (mkUser "a" "carl") users_down_after_write)
    = None
  /\ md_rows (f_db (fst (fst (FullRedisCache.Save "app" "users"
                              (mkUser "a" "carl") users_down_after_write))))
    = [mkUser "a" "carl"]
  /\ snd (FullRedisCache.load "app" "users"
            (fst (fst (FullRedisCache.Save "app" "users"
                         (mkUser "a" "carl") users_down_after_write))))
    = Some "dial tcp: connection refused"
  /\ snd (FullRedisCache.Update "app" "users" "a" [("name", "carl")]
            users_down_after_write) = (1%Z, None)
  /\ snd (FullRedisCache.Delete "app" "users" ["a"] users_down_after_write)
    = (1%Z, None)
  /\ hash (f_red (fst (FullRedisCache.Update "app" "users" "a" [("name", "carl")]
                         users_down_after_write)))
    = hash (f_red users_down_after_write).
Proof. vm_compute. repeat split; reflexivity. Qed.

(** C5: [RedisMongo.Save] of an existing entity replaces the document but
    deletes no cache key: the Redis server is left as it was, so the
    cached primary and old-name entries of user "a" survive. *)
Theorem Mongo_Save_existing_no_invalidation :
  let m := mkM {["a" := mkUser "a" "bob"]} (fun _ => None) 0
             (mkRedis {["app/users/id/a" := user_json (mkUser "a" "bob");
                        "app/users/name/bob" := user_json (mkUser "a" "bob")]} ∅ [])
  in match RedisMongo.Save "app" "users" "id" (Some (mkUser "a" "carl")) m with
     | Returned (m', _, e) =>
         e = None
         /\ m_coll m' !! "a" = Some (mkUser "a" "carl")
         /\ m_red m' = m_red m
         /\ kv (m_red m') !! "app/users/id/a" = Some (user_json (mkUser "a" "bob"))
     | Panicked _ => False
     end.
Proof. vm_compute. repeat split; reflexivity. Qed.

(** C6: [FullRedisCache.List] loads the snapshot when its key is absent,
    then an id missing from the snapshot makes [HMGetJson] assert [nil]
    to [string]: the call panics instead of reporting "not found". *)
Theorem Full_List_missing_id_panics :
  let w := mkF (mkMemdb [mkUser "a" "bob"] None None) empty_redis in
  snd (FullRedisCache.List "app" "users" ["a"] w)
    = Returned ([mkUser "a" "bob"], None)
  /\ snd (FullRedisCache.List "app" "users" ["a"; "b"] w)
    = Panicked "interface conversion: interface {} is nil, not string"
  /\ rlog (f_red (fst (FullRedisCache.List "app" "users" ["a"; "b"] w)))
    = [CExists "app/users/full";
       CHSet "app/users/full" [("a", user_json (mkUser "a" "bob"))];
       CExpire "app/users/full";
       CHMGet "app/users/full" ["a"; "b"]].
Proof. vm_compute. repeat split; reflexivity. Qed.

(** ** Further properties of the code *)

Section MapFolds.
  Context {A : Type}.

Lemma foldl_insert_notin (l : list (string * A)) (m : gmap string A) (k : string) :
    k ∉ map fst l -> foldl (fun m p => <[fst p := snd p]> m) m l !! k = m !! k.
  Proof.
    revert m. induction l as [|[k' v'] l IH]; intros m Hk; simpl; [reflexivity|].
    simpl in Hk. rewrite elem_of_cons in Hk.
    rewrite IH by tauto. apply lookup_insert_ne. intros ->. tauto.
  Qed.

Lemma foldl_insert_in (l : list (string * A)) (m : gmap string A) (k : string) (v : A) :
    NoDup (map fst l) -> (k, v) ∈ l ->
    foldl (fun m p => <[fst p := snd p]> m) m l !! k = Some v.
  Proof.
    revert m. induction l as [|[k' v'] l IH]; intros m Hnd Hin; simpl.
    - now apply elem_of_nil in Hin.
    - simpl in Hnd. rewrite NoDup_cons in Hnd.
      apply elem_of_cons in Hin as [[= -> ->]|Hin].
      + rewrite foldl_insert_notin by tauto. apply lookup_insert_eq.
      + apply IH; tauto.
  Qed.

Lemma foldl_delete_notin (ks : list string) (m : gmap string A) (k : string) :
    k ∉ ks -> foldl (fun m k => delete k m) m ks !! k = m !! k.
  Proof.
    revert m. induction ks as [|k' ks IH]; intros m Hk; simpl; [reflexivity|].
    rewrite elem_of_cons in Hk. rewrite IH by tauto.
    apply lookup_delete_ne. intros ->. tauto.
  Qed.

Lemma foldl_delete_in (ks : list string) (m : gmap string A) (k : string) :
    k ∈ ks -> foldl (fun m k => delete k m) m ks !! k = None.
  Proof.
    revert m. induction ks as [|k' ks IH]; intros m Hk; simpl.
    - now apply elem_of_nil in Hk.
    - destruct (decide (k ∈ ks)) as [Hin|Hnin]; [now apply IH|].
      apply elem_of_cons in Hk as [->|]; [|tauto].
      rewrite foldl_delete_notin by exact Hnin. apply lookup_delete_eq.
  Qed.

Lemma foldl_delete_None (ks : list string) (m : gmap string A) (k : string) :
    m !! k = None -> foldl (fun m k => delete k m) m ks !! k = None.
  Proof.
    revert m. induction ks as [|k' ks IH]; intros m Hk; simpl; [exact Hk|].
    apply IH. destruct (decide (k = k')) as [->|Hne];
      [apply lookup_delete_eq | now rewrite lookup_delete_ne by congruence].
  Qed.
End MapFolds.

Lemma setex_all_effect (keys : list string) (v : string) (s : redis) :
  foldl (fun s k => Redis.setex k v s) s keys
    = mkRedis (foldl (fun m p => <[fst p := snd p]> m) (kv s)
                     (map (fun k => (k, v)) keys))
              (hash s) (app (rlog s) (map (fun k => CSetEX k v) keys)).
Proof.
  revert s. induction keys as [|k keys IH]; intros s; simpl.
  - destruct s; simpl; now rewrite app_nil_r.
  - rewrite IH. unfold Redis.setex; simpl. now rewrite <- app_assoc.
Qed.

(** [MSetNull keys] stores the sentinel ["null"] under every key of [keys]
    and leaves every other key as it was, sending one [SETEX] per key (an
    empty list sends nothing). *)
Theorem MSetNull_effect (keys : list string) (s : redis) (k : string) :
  snd (RedisJson.MSetNull keys s) = None
  /\ kv (fst (RedisJson.MSetNull keys s)) !! k
     = (if decide (k ∈ keys) then Some "null" else kv s !! k)
  /\ rlog (fst (RedisJson.MSetNull keys s))
     = app (rlog s) (map (fun k => CSetEX k "null") keys).
Proof.
  assert (Hfx : forall ks, foldl (fun s k => Redis.setex k "null" s) s ks
                           = fst (RedisJson.MSetNull ks s)).
  { intros [|k0 ks]; [reflexivity|reflexivity]. }
  rewrite <- Hfx, setex_all_effect. simpl.
  split; [now destruct keys|]. split; [|reflexivity].
  destruct (decide (k ∈ keys)) as [Hin|Hnin].
  - induction keys as [|k' ks IH] using rev_ind; [now apply elem_of_nil in Hin|].
    rewrite map_app, foldl_app. simpl.
    destruct (decide (k = k')) as [->|Hne]; [apply lookup_insert_eq|].
    rewrite lookup_insert_ne by congruence. apply IH.
    apply elem_of_app in Hin as [|Hin]; [assumption|].
    apply list_elem_of_singleton in Hin. congruence.
  - apply foldl_insert_notin. intros Hk. apply Hnin. clear -Hk.
    induction keys as [|k' ks IH]; simpl in *; [now apply elem_of_nil in Hk|].
    rewrite elem_of_cons in *. tauto.
Qed.

Section HashProofs.
  Context {T : Type} `{Serializer T} `{Zero T} `{Table T}.

Lemma hset_args_ok (objs : list T) :
    (forall o, o ∈ objs -> snd (Marshal o) = None) ->
    RedisHashJson.hset_args objs
      = (map (fun o => (GetID o, fst (Marshal o))) objs, None).
  Proof.
    induction objs as [|o objs IH]; intros Hm; simpl; [reflexivity|].
    pose proof (Hm o (list_elem_of_here o objs)) as Ho.
    destruct (Marshal o) as [y e] eqn:Eo; simpl in Ho; subst e.
    rewrite IH; [reflexivity|]. intros o' Ho'. apply Hm. now apply elem_of_cons; right.
  Qed.

  (** The field [f] of the hash [key] after [HSetJson key objs], when
      every entity marshals. *)
Lemma HSetJson_field (key : string) (objs : list T) (s : redis) (f : string) :
    (forall o, o ∈ objs -> snd (Marshal o) = None) ->
    hash (fst (RedisHashJson.HSetJson key objs s)) !! key ≫= (fun h => h !! f)
      = match objs with
        | [] => hash s !! key ≫= (fun h => h !! f)
        | _ => foldl (fun m p => <[fst p := snd p]> m) (default ∅ (hash s !! key))
                     (map (fun o => (GetID o, fst (Marshal o))) objs) !! f
        end.
  Proof.
    intros Hm. destruct objs as [|o objs']; [reflexivity|].
    unfold RedisHashJson.HSetJson. rewrite (hset_args_ok _ Hm).
    simpl. now rewrite lookup_insert_eq.
  Qed.

Lemma map_fst_ids (objs : list T) :
    map fst (map (fun o => (GetID o, fst (Marshal o))) objs) = map GetID objs.
  Proof. now rewrite map_map. Qed.

  (** [HSetJson key objs] then [HGetJson key (GetID o)] returns [o] as
      found, for every [o] of [objs], when the IDs of [objs] are distinct
      and the codec round-trips each of them. *)
Theorem HSetJson_HGetJson (key : string) (objs : list T) (s : redis) (o : T)
      (Hids : NoDup (map GetID objs))
      (Hrt : forall o', o' ∈ objs ->
               snd (Marshal o') = None /\ Unmarshal (fst (Marshal o')) zero = (o', None))
      (Ho : o ∈ objs) :
    snd (RedisHashJson.HGetJson key (GetID o) (fst (RedisHashJson.HSetJson key objs s)))
      = (o, true, None).
  Proof.
    assert (Hm : forall o', o' ∈ objs -> snd (Marshal o') = None)
      by (intros; now apply Hrt).
    unfold RedisHashJson.HGetJson at 1. unfold Redis.hget; simpl.
    rewrite (HSetJson_field key objs s (GetID o) Hm).
    destruct objs as [|o0 objs']; [now apply elem_of_nil in Ho|].
    rewrite (foldl_insert_in _ _ (GetID o) (fst (Marshal o))).
    - simpl. now rewrite (proj2 (Hrt o Ho)).
    - now rewrite map_fst_ids.
    - apply list_elem_of_In, in_map_iff. exists o. split; [reflexivity|].
      now apply list_elem_of_In.
  Qed.

  (** After [HDelJson key ids], [HGetJson key id] reports every [id] of
      [ids] as not found. *)
Theorem HDelJson_HGetJson (key : string) (ids : list string) (s : redis)
      (id : string) (Hin : id ∈ ids) :
    snd (RedisHashJson.HGetJson key id (fst (RedisHashJson.HDelJson key ids s)))
      = (zero, false, None).
  Proof.
    destruct ids as [|i0 ids']; [now apply elem_of_nil in Hin|].
    unfold RedisHashJson.HGetJson, Redis.hget. simpl.
    unfold Redis.hdel; simpl.
    case_decide as He.
    - rewrite lookup_delete_eq. reflexivity.
    - rewrite lookup_insert_eq. simpl.
      change (foldl (fun m f => delete f m) (delete i0 (default ∅ (hash s !! key))) ids')
        with (foldl (fun m f => delete f m) (default ∅ (hash s !! key)) (i0 :: ids')).
      now rewrite foldl_delete_in.
  Qed.
End HashProofs.

Lemma HSetJson_HGetJson_witness :
  snd (RedisHashJson.HGetJson "app/users/full" (GetID (mkUser "b" "dan"))
         (fst (RedisHashJson.HSetJson "app/users/full"
                 [mkUser "a" "bob"; mkUser "b" "dan"] empty_redis)))
    = (mkUser "b" "dan", true, None).
Proof.
  apply (HSetJson_HGetJson "app/users/full" [mkUser "a" "bob"; mkUser "b" "dan"]
           empty_redis (mkUser "b" "dan")).
  - repeat constructor; simpl; set_solver.
  - intros o Ho. repeat (apply elem_of_cons in Ho as [->|Ho]; [split; reflexivity|]).
    now apply elem_of_nil in Ho.
  - set_solver.
Defined.

Lemma HDelJson_HGetJson_witness :
  snd (RedisHashJson.HGetJson (T := user) "app/users/full" "a"
         (fst (RedisHashJson.HDelJson "app/users/full" ["a"]
                 (mkRedis ∅ {["app/users/full" := {["a" := "x"; "b" := "y"]}]} []))))
    = (zero, false, None).
Proof. apply HDelJson_HGetJson. set_solver. Defined.

Section FullCacheMore.
  Context {D T V : Type} `{Serializer T} `{Zero T} `{Table T}
          `{FullDBCache D T V}.
  Variables prefix table : string.

Definition snapshot_field (r : redis) (f : string) : option string :=
    hash r !! FullRedisCache.CacheKey prefix table ≫= (fun h => h !! f).

Lemma hset_args_fst (objs : list T) :
    snd (RedisHashJson.hset_args objs) = None ->
    map fst (fst (RedisHashJson.hset_args objs)) = map GetID objs.
  Proof.
    induction objs as [|o objs IH]; simpl; [reflexivity|].
    destruct (Marshal o) as [y [e|]]; simpl; [discriminate|].
    destruct (RedisHashJson.hset_args objs) as [args e'] eqn:Ea.
    simpl in *. intros He. f_equal. now apply IH.
  Qed.

Lemma HSetJson_other_field (key : string) (objs : list T) (s : redis) (f : string) :
    f ∉ map GetID objs ->
    hash (fst (RedisHashJson.HSetJson key objs s)) !! key ≫= (fun h => h !! f)
      = hash s !! key ≫= (fun h => h !! f).
  Proof.
    intros Hf. unfold RedisHashJson.HSetJson.
    destruct objs as [|o objs']; [reflexivity|].
    pose proof (hset_args_fst (o :: objs')) as Hfst.
    destruct (RedisHashJson.hset_args (o :: objs')) as [args [e|]]; [reflexivity|].
    simpl in *. rewrite lookup_insert_eq. simpl.
    rewrite foldl_insert_notin by (rewrite Hfst by reflexivity; exact Hf).
    now destruct (hash s !! key).
  Qed.

  (** [load] never removes a field from the snapshot: a field whose ID is
      not among the backend's rows keeps its value, whether the reload
      succeeds or fails. *)
Theorem load_keeps_other_fields (w : fstate D) (f : string) :
    f ∉ map GetID (fst (db_ListAll (f_db w))) ->
    snapshot_field (f_red (fst (FullRedisCache.load prefix table w))) f
      = snapshot_field (f_red w) f.
  Proof.
    intros Hf. unfold FullRedisCache.load, snapshot_field.
    destruct (db_ListAll (f_db w)) as [rows [e|]]; simpl in *; [reflexivity|].
    pose proof (HSetJson_other_field (FullRedisCache.CacheKey prefix table) rows
                  (f_red w) f Hf) as Hh.
    destruct (RedisHashJson.HSetJson _ rows (f_red w)) as [red [e|]]; exact Hh.
  Qed.

  (** [FullRedisCache.Delete] keeps serving a deleted entity: when the
      snapshot holds a field for [id] and the backend, after deleting,
      lists no row with that ID, the reload leaves the field in place and
      [Get id] returns the old entity as found. *)
Theorem Delete_keeps_stale_entry (ids : list string) (w : fstate D)
      (id v : string) (t : T) (db' : D) (n : Z)
      (Hcached : snapshot_field (f_red w) id = Some v)
      (Hdel : db_Delete ids (f_db w) = (db', n, None))
      (Hgone : id ∉ map GetID (fst (db_ListAll db')))
      (Hdec : Unmarshal v zero = (t, None)) :
    snd (FullRedisCache.Delete prefix table ids w) = (n, None)
    /\ snd (FullRedisCache.Get prefix table id (fst (FullRedisCache.Delete prefix table ids w)))
       = (t, true, None).
  Proof.
    unfold FullRedisCache.Delete. rewrite Hdel.
    pose proof (load_keeps_other_fields (mkF db' (f_red w)) id Hgone) as Hk.
    destruct (FullRedisCache.load prefix table (mkF db' (f_red w))) as [w' e'] eqn:El.
    simpl in *. split; [reflexivity|].
    unfold FullRedisCache.Get, RedisHashJson.HGetJson, Redis.hget. simpl.
    unfold snapshot_field in Hk, Hcached. simpl in Hk. rewrite Hk, Hcached, Hdec.
    reflexivity.
  Qed.

  (** A successful reload stores every backend row under its ID. *)
Lemma load_ok_field (w : fstate D) (rows : list T) (o : T) :
    db_ListAll (f_db w) = (rows, None) ->
    NoDup (map GetID rows) ->
    (forall o', o' ∈ rows -> snd (Marshal o') = None) ->
    o ∈ rows ->
    snd (FullRedisCache.load prefix table w) = None
    /\ f_db (fst (FullRedisCache.load prefix table w)) = f_db w
    /\ snapshot_field (f_red (fst (FullRedisCache.load prefix table w))) (GetID o)
       = Some (fst (Marshal o)).
  Proof.
    intros Hl Hnd Hm Ho. unfold FullRedisCache.load. rewrite Hl.
    destruct rows as [|o0 rows']; [now apply elem_of_nil in Ho|].
    unfold RedisHashJson.HSetJson. rewrite (hset_args_ok _ Hm).
    remember (map (fun o => (GetID o, fst (Marshal o))) (o0 :: rows')) as l eqn:El.
    unfold snapshot_field. simpl. split; [reflexivity|]. split; [reflexivity|].
    rewrite lookup_insert_eq. simpl. apply foldl_insert_in.
    - subst l. now rewrite map_fst_ids.
    - subst l. apply list_elem_of_In, in_map_iff. exists o. split; [reflexivity|].
      now apply list_elem_of_In.
  Qed.

  (** [FullRedisCache.Get] on an ID missing from the snapshot reloads the
      collection and returns the backend's row with that ID as found
      (distinct IDs, a codec that round-trips the rows). *)
Theorem Get_miss_reloads (w : fstate D) (rows : list T) (o : T)
      (Hmiss : snapshot_field (f_red w) (GetID o) = None)
      (Hl : db_ListAll (f_db w) = (rows, None))
      (Hnd : NoDup (map GetID rows))
      (Hrt : forall o', o' ∈ rows ->
               snd (Marshal o') = None /\ Unmarshal (fst (Marshal o')) zero = (o', None))
      (Ho : o ∈ rows) :
    snd (FullRedisCache.Get prefix table (GetID o) w) = (o, true, None).
  Proof.
    unfold FullRedisCache.Get at 1, RedisHashJson.HGetJson at 1, Redis.hget at 1.
    simpl. unfold snapshot_field in Hmiss. rewrite Hmiss. simpl.
    assert (Hm : forall o', o' ∈ rows -> snd (Marshal o') = None)
      by (intros; now apply Hrt).
    pose proof (load_ok_field (mkF (f_db w) (Redis.issue (CHGet
                  (FullRedisCache.CacheKey prefix table) (GetID o)) (f_red w)))
                  rows o Hl Hnd Hm Ho) as [He [_ Hf]].
    destruct (FullRedisCache.load _ _ _) as [w' e'] eqn:El. simpl in He, Hf. subst e'.
    unfold RedisHashJson.HGetJson, Redis.hget. simpl.
    unfold snapshot_field in Hf. rewrite Hf. simpl.
    now rewrite (proj2 (Hrt o Ho)).
  Qed.
End FullCacheMore.

Definition users_cached : fstate memdb :=
  mkF (mkMemdb [mkUser "a" "bob"] None None)
      (mkRedis ∅ {["app/users/full" := {["a" := user_json (mkUser "a" "bob")]}]} []).

Lemma load_keeps_other_fields_witness :
  snapshot_field "app" "users"
    (f_red (fst (FullRedisCache.load "app" "users"
                   (mkF (mkMemdb [] None None) (f_red users_cached))))) "a"
    = snapshot_field "app" "users" (f_red users_cached) "a".
Proof.
  apply (load_keeps_other_fields "app" "users"
           (mkF (mkMemdb [] None None) (f_red users_cached)) "a").
  simpl. set_solver.
Defined.

Lemma Delete_keeps_stale_entry_witness :
  snd (FullRedisCache.Delete "app" "users" ["a"] users_cached) = (1%Z, None)
  /\ snd (FullRedisCache.Get "app" "users" "a"
            (fst (FullRedisCache.Delete "app" "users" ["a"] users_cached)))
     = (mkUser "a" "bob", true, None).
Proof.
  apply (Delete_keeps_stale_entry "app" "users" ["a"] users_cached "a"
           (user_json (mkUser "a" "bob")) (mkUser "a" "bob")
           (mkMemdb [] None None) 1%Z); try reflexivity.
  simpl. set_solver.
Defined.

Lemma Get_miss_reloads_witness :
  snd (FullRedisCache.Get "app" "users" (GetID (mkUser "b" "dan"))
         (mkF (mkMemdb [mkUser "a" "bob"; mkUser "b" "dan"] None None) empty_redis))
    = (mkUser "b" "dan", true, None).
Proof.
  apply (Get_miss_reloads "app" "users" _ [mkUser "a" "bob"; mkUser "b" "dan"]);
    try reflexivity.
  - repeat constructor; simpl; set_solver.
  - intros o Ho. repeat (apply elem_of_cons in Ho as [->|Ho]; [split; reflexivity|]).
    now apply elem_of_nil in Ho.
  - set_solver.
Defined.

Section FullCacheList.
  Context {D T V : Type} `{Serializer T} `{Zero T} `{Table T}
          `{FullDBCache D T V}.
  Variables prefix table : string.

Lemma load_ok_none (w : fstate D) (rows : list T) :
    db_ListAll (f_db w) = (rows, None) ->
    (forall o', o' ∈ rows -> snd (Marshal o') = None) ->
    snd (FullRedisCache.load prefix table w) = None.
  Proof.
    intros Hl Hm. unfold FullRedisCache.load. rewrite Hl.
    destruct rows as [|o0 rows']; [reflexivity|].
    unfold RedisHashJson.HSetJson. now rewrite (hset_args_ok _ Hm).
  Qed.

Lemma decode_all_ok (r os : list T) :
    (forall o, o ∈ os -> Unmarshal (fst (Marshal o)) zero = (o, None)) ->
    RedisHashJson.decode_all r (map (fun o => Some (fst (Marshal o))) os)
      = Returned (app r os, None).
  Proof.
    revert r. induction os as [|o os IH]; intros r Hu; simpl.
    - now rewrite app_nil_r.
    - rewrite (Hu o (list_elem_of_here o os)).
      rewrite IH by (intros; apply Hu; now apply elem_of_cons; right).
      now rewrite <- app_assoc.
  Qed.

  (** [FullRedisCache.List] with no snapshot in Redis loads the collection
      and returns the requested rows in the order of the requested IDs
      (every ID has a backend row; distinct IDs; a round-tripping codec). *)
Theorem List_absent_loads (w : fstate D) (rows os : list T)
      (Hkv : kv (f_red w) !! FullRedisCache.CacheKey prefix table = None)
      (Hh : hash (f_red w) !! FullRedisCache.CacheKey prefix table = None)
      (Hl : db_ListAll (f_db w) = (rows, None))
      (Hnd : NoDup (map GetID rows))
      (Hrt : forall o', o' ∈ rows ->
               snd (Marshal o') = None /\ Unmarshal (fst (Marshal o')) zero = (o', None))
      (Hos : forall o, o ∈ os -> o ∈ rows) :
    snd (FullRedisCache.List prefix table (map GetID os) w) = Returned (os, None).
  Proof.
    assert (Hm : forall o', o' ∈ rows -> snd (Marshal o') = None)
      by (intros; now apply Hrt).
    unfold FullRedisCache.List at 1. unfold Redis.exists_ at 1.
    rewrite Hkv, Hh. simpl.
    set (w1 := mkF (f_db w) (Redis.issue (CExists (FullRedisCache.CacheKey prefix table))
                                         (f_red w))).
    pose proof (load_ok_none w1 rows Hl Hm) as Hn.
    assert (Hf : forall o, o ∈ os ->
               snapshot_field prefix table (f_red (fst (FullRedisCache.load prefix table w1)))
                 (GetID o) = Some (fst (Marshal o)))
      by (intros o Ho; now apply (load_ok_field prefix table w1 rows o Hl Hnd Hm (Hos o Ho))).
    destruct (FullRedisCache.load prefix table w1) as [w2 e2]. simpl in Hn, Hf. subst e2.
    unfold RedisHashJson.HMGetJson.
    destruct os as [|o0 os']; [reflexivity|].
    remember (o0 :: os') as os eqn:Eos. simpl map.
    assert (Hmap : map (fun f => hash (f_red w2) !! FullRedisCache.CacheKey prefix table
                                  ≫= (fun h => h !! f)) (map GetID os)
                   = map (fun o => Some (fst (Marshal o))) os).
    { rewrite map_map. apply map_ext_in. intros o Ho.
      apply Hf. now apply list_elem_of_In. }
    rewrite Eos in Hmap |- *. unfold Redis.hmget. rewrite Hmap. cbn [fst snd].
    rewrite decode_all_ok; [reflexivity|].
    intros o Ho. apply Hrt, Hos. now rewrite Eos.
  Qed.
End FullCacheList.

Lemma List_absent_loads_witness :
  snd (FullRedisCache.List "app" "users" (map GetID [mkUser "b" "dan"; mkUser "a" "bob"])
         (mkF (mkMemdb [mkUser "a" "bob"; mkUser "b" "dan"] None None) empty_redis))
    = Returned ([mkUser "b" "dan"; mkUser "a" "bob"], None).
Proof.
  apply (List_absent_loads "app" "users" _ [mkUser "a" "bob"; mkUser "b" "dan"]);
    try reflexivity.
  - repeat constructor; simpl; set_solver.
  - intros o Ho. repeat (apply elem_of_cons in Ho as [->|Ho]; [split; reflexivity|]).
    now apply elem_of_nil in Ho.
  - intros o Ho. set_solver.
Defined.

Section MGetProofs.
  Context {T : Type} `{Serializer T} `{Zero T}.

  (** The value [MGetJson] puts in the slot of key [k]. *)
Definition mget_slot (s : redis) (k : string) : T :=
    match kv s !! k with
    | None => zero
    | Some v => fst (Unmarshal v zero)
    end.

  (** The positions, counted from [i], of the keys absent from [s]. *)
Fixpoint miss_positions (s : redis) (i : nat) (ks : list string) : list nat :=
    match ks with
    | [] => []
    | k :: ks' =>
        match kv s !! k with
        | None => i :: miss_positions s (S i) ks'
        | Some _ => miss_positions s (S i) ks'
        end
    end.

Lemma mget_loop_ok (s : redis) (ks : list string) (i : nat) (r : list T)
      (missed : list nat) :
    (forall k v, k ∈ ks -> kv s !! k = Some v -> snd (Unmarshal v zero) = None) ->
    RedisJson.mget_loop i (map (fun k => kv s !! k) ks) r missed
      = (app r (map (mget_slot s) ks), app missed (miss_positions s i ks), None).
  Proof.
    revert i r missed. induction ks as [|k ks IH]; intros i r missed Hd; simpl.
    - now rewrite !app_nil_r.
    - assert (Hd' : forall k' v, k' ∈ ks -> kv s !! k' = Some v ->
                      snd (Unmarshal v zero) = None)
        by (intros k' v Hk; apply Hd; now apply elem_of_cons; right).
      unfold mget_slot at 1. destruct (kv s !! k) as [v|] eqn:Ek.
      + pose proof (Hd k v (list_elem_of_here k ks) Ek) as Hv.
        destruct (Unmarshal v zero) as [t e] eqn:Eu. simpl in Hv. subst e.
        rewrite IH by exact Hd'. now rewrite <- app_assoc.
      + rewrite IH by exact Hd'. now rewrite <- !app_assoc.
  Qed.

  (** [MGetJson keys] returns one slot per key, in order: the decoded value
      of a present key and the zero value of an absent one, with the
      positions of the absent keys, when every present value decodes; it
      sends one [MGET] and then one [EXPIRE] per key, and writes nothing. *)
Theorem MGetJson_slots (keys : list string) (s : redis)
      (Hdec : forall k v, k ∈ keys -> kv s !! k = Some v ->
                          snd (Unmarshal v zero) = None) :
    snd (RedisJson.MGetJson keys s)
      = (map (mget_slot s) keys, miss_positions s 0 keys, None)
    /\ kv (fst (RedisJson.MGetJson keys s)) = kv s
    /\ rlog (fst (RedisJson.MGetJson keys s))
       = app (rlog s) (match keys with
                       | [] => []
                       | _ => CMGet keys :: map CExpire keys
                       end).
  Proof.
    destruct keys as [|k0 ks] eqn:Ek.
    - simpl. now rewrite app_nil_r.
    - rewrite <- Ek in Hdec |- *. unfold RedisJson.MGetJson. rewrite Ek at 1.
      unfold Redis.mget. cbn [fst snd].
      rewrite (mget_loop_ok s keys 0 [] [] Hdec). simpl.
      rewrite expire_all_effect. subst keys. cbn [fst snd kv rlog].
      split; [reflexivity|]. split; [reflexivity|]. unfold Redis.issue; simpl. now rewrite <- app_assoc.
  Qed.
End MGetProofs.

Lemma MGetJson_slots_witness :
  snd (RedisJson.MGetJson ["k1"; "k2"; "k3"]
         (mkRedis {["k1" := user_json (mkUser "a" "bob");
                    "k3" := "null"]} ∅ []))
    = ([mkUser "a" "bob"; zero; zero], [1%nat], None).
Proof.
  refine (proj1 (MGetJson_slots ["k1"; "k2"; "k3"] _ _)).
  intros k v Hk Hv. apply elem_of_cons in Hk as [->|Hk]; [vm_compute in Hv; now inversion Hv|].
  apply elem_of_cons in Hk as [->|Hk]; [vm_compute in Hv; discriminate|].
  apply elem_of_cons in Hk as [->|Hk]; [vm_compute in Hv; now inversion Hv|].
  now apply elem_of_nil in Hk.
Defined.

Section HMGetProofs.
  Context {T : Type} `{Serializer T} `{Zero T} `{Table T}.

Lemma decode_all_app (r good : list T) (l : list (option string)) :
    (forall o, o ∈ good -> Unmarshal (fst (Marshal o)) zero = (o, None)) ->
    RedisHashJson.decode_all r (app (map (fun o => Some (fst (Marshal o))) good) l)
      = RedisHashJson.decode_all (app r good) l.
  Proof.
    revert r. induction good as [|o good IH]; intros r Hu; simpl.
    - now rewrite app_nil_r.
    - rewrite (Hu o (list_elem_of_here o good)).
      rewrite IH by (intros; apply Hu; now apply elem_of_cons; right).
      now rewrite <- app_assoc.
  Qed.

  (** [HMGetJson] stops at the first cached value that fails to decode and
      returns the entities decoded before it with a nil error: the
      malformed value and every ID after it are dropped silently (the IDs
      after it need not even be cached). *)
Theorem HMGetJson_malformed_truncates (key : string) (good : list T)
      (badid v : string) (rest : list string) (s : redis)
      (Hgood : forall o, o ∈ good ->
                 hash s !! key ≫= (fun h => h !! GetID o) = Some (fst (Marshal o))
                 /\ Unmarshal (fst (Marshal o)) zero = (o, None))
      (Hbad : hash s !! key ≫= (fun h => h !! badid) = Some v)
      (Hmal : snd (Unmarshal v zero) <> None) :
    snd (RedisHashJson.HMGetJson key (app (map GetID good) (badid :: rest)) s)
      = Returned (good, None).
  Proof.
    unfold RedisHashJson.HMGetJson.
    destruct (app (map GetID good) (badid :: rest)) as [|i0 ids] eqn:Eids;
      [destruct good; discriminate|].
    rewrite <- Eids. unfold Redis.hmget. cbn [fst snd].
    rewrite map_app, map_map.
    assert (Hm : map (fun o => hash s !! key ≫= (fun h => h !! GetID o)) good
                 = map (fun o => Some (fst (Marshal o))) good).
    { apply map_ext_in. intros o Ho. apply Hgood. now apply list_elem_of_In. }
    rewrite Hm, decode_all_app by (intros; now apply Hgood).
    simpl. rewrite Hbad. destruct (Unmarshal v zero) as [t [e|]]; [reflexivity|].
    now contradiction Hmal.
  Qed.
End HMGetProofs.

Lemma HMGetJson_malformed_truncates_witness :
  snd (RedisHashJson.HMGetJson "app/users/full"
         (app (map GetID [mkUser "a" "bob"]) ["b"; "c"])
         (mkRedis ∅ {["app/users/full" := {["a" := user_json (mkUser "a" "bob");
                                            "b" := "{broken"]}]} []))
    = Returned ([mkUser "a" "bob"], None).
Proof.
  apply (HMGetJson_malformed_truncates "app/users/full" [mkUser "a" "bob"] "b"
           "{broken" ["c"]).
  - intros o Ho. apply elem_of_cons in Ho as [->|Ho]; [split; reflexivity|].
    now apply elem_of_nil in Ho.
  - reflexivity.
  - vm_compute. discriminate.
Defined.

Lemma map_to_list_foldl_insert {A} (args : list (string * A)) :
  NoDup (map fst args) ->
  map_to_list (foldl (fun m p => <[fst p := snd p]> m) (∅ : gmap string A) args) ≡ₚ args.
Proof.
  induction args as [|p args IH] using rev_ind; intros Hnd.
  - simpl. now rewrite map_to_list_empty.
  - rewrite map_app in Hnd. simpl in Hnd.
    apply NoDup_app in Hnd as (Hnd1 & Hdis & _).
    assert (Hp : fst p ∉ map fst args).
    { intros Hin. apply (Hdis _ Hin). now apply list_elem_of_here. }
    rewrite foldl_app. simpl. rewrite map_to_list_insert.
    + rewrite (IH Hnd1). destruct p. simpl. apply Permutation_cons_append.
    + rewrite foldl_insert_notin by exact Hp. apply lookup_empty.
Qed.

Section ListAllProofs.
  Context {D T V : Type} `{Serializer T} `{Zero T} `{Table T}
          `{FullDBCache D T V}.
  Variables prefix table : string.

Lemma decode_until_ok (r : list T) (l : list string) :
    (forall y, y ∈ l -> snd (Unmarshal y zero) = None) ->
    RedisHashJson.decode_until r l = app r (map (fun y => fst (Unmarshal y zero)) l).
  Proof.
    revert r. induction l as [|y l IH]; intros r Hd; simpl.
    - now rewrite app_nil_r.
    - pose proof (Hd y (list_elem_of_here y l)) as Hy.
      destruct (Unmarshal y zero) as [t e]. simpl in Hy. subst e.
      rewrite IH by (intros; apply Hd; now apply elem_of_cons; right).
      now rewrite <- app_assoc.
  Qed.

  (** [FullRedisCache.ClearCache] deletes the snapshot, so the next
      [ListAll] reloads it and returns exactly the backend's rows (in the
      hash's iteration order), given distinct IDs and a round-tripping
      codec. *)
Theorem ClearCache_ListAll_reloads (objs : list T) (w : fstate D) (rows : list T)
      (Hl : db_ListAll (f_db w) = (rows, None))
      (Hnd : NoDup (map GetID rows))
      (Hrt : forall o', o' ∈ rows ->
               snd (Marshal o') = None /\ Unmarshal (fst (Marshal o')) zero = (o', None)) :
    exists l,
      snd (FullRedisCache.ListAll prefix table
             (fst (FullRedisCache.ClearCache prefix table objs w))) = (l, None)
      /\ l ≡ₚ rows.
  Proof.
    assert (Hm : forall o', o' ∈ rows -> snd (Marshal o') = None)
      by (intros; now apply Hrt).
    set (key := FullRedisCache.CacheKey prefix table).
    unfold FullRedisCache.ClearCache, FullRedisCache.ListAll, Redis.exists_.
    cbn [fst snd f_red f_db Redis.del kv hash].
    rewrite !foldl_delete_in by (fold key; apply list_elem_of_here).
    cbn -[FullRedisCache.load].
    unfold FullRedisCache.load. cbn [f_db]. rewrite Hl.
    destruct rows as [|o0 rows'].
    - exists []. split; [|reflexivity].
      unfold RedisHashJson.HGetAllJson, Redis.hgetall. simpl.
      rewrite lookup_delete_eq. simpl. now rewrite map_to_list_empty.
    - unfold RedisHashJson.HSetJson. rewrite (hset_args_ok _ Hm).
      remember (o0 :: rows') as rows eqn:Er.
      remember (map (fun o => (GetID o, fst (Marshal o))) rows) as args eqn:Ea.
      unfold RedisHashJson.HGetAllJson, Redis.hgetall. simpl.
      rewrite !lookup_insert_eq. simpl. rewrite lookup_delete_eq. simpl.
      assert (Hp : map_to_list (foldl (fun m p => <[fst p := snd p]> m)
                                      (∅ : gmap string string) args) ≡ₚ args).
      { apply map_to_list_foldl_insert. subst args. now rewrite map_fst_ids. }
      assert (Hs : map snd (map_to_list (foldl (fun m p => <[fst p := snd p]> m)
                                          (∅ : gmap string string) args))
                   ≡ₚ map (fun o => fst (Marshal o)) rows).
      { rewrite Hp, Ea, map_map. reflexivity. }
      assert (Hdec : forall y, y ∈ map snd (map_to_list (foldl (fun m p => <[fst p := snd p]> m)
                                          (∅ : gmap string string) args)) ->
                     snd (Unmarshal y zero) = None).
      { intros y Hy. rewrite Hs in Hy. apply list_elem_of_In, in_map_iff in Hy
          as (o & <- & Ho). apply list_elem_of_In in Ho. now rewrite (proj2 (Hrt o Ho)). }
      eexists. split; [reflexivity|].
      rewrite decode_until_ok by exact Hdec. simpl.
      rewrite Hs, map_map.
      transitivity (map (fun o : T => o) rows); [|now rewrite map_id].
      apply Permutation_refl'. apply map_ext_in. intros o Ho.
      apply list_elem_of_In in Ho. now rewrite (proj2 (Hrt o Ho)).
  Qed.
End ListAllProofs.

Lemma ClearCache_ListAll_reloads_witness :
  exists l,
    snd (FullRedisCache.ListAll "app" "users"
           (fst (FullRedisCache.ClearCache (T := user) "app" "users" [] users_cached))) = (l, None)
    /\ l ≡ₚ [mkUser "a" "bob"].
Proof.
  apply (ClearCache_ListAll_reloads "app" "users" [] users_cached [mkUser "a" "bob"]).
  - reflexivity.
  - repeat constructor; set_solver.
  - intros o Ho. apply elem_of_cons in Ho as [->|Ho]; [split; reflexivity|].
    now apply elem_of_nil in Ho.
Defined.

(** *** RedisMongo: creation, deletion, save and update edge cases *)

Lemma hex_digits_not_null (f n : nat) :
  IsNullID (hex_digits (S f) n) = false.
Proof.
  cbn [hex_digits]. unfold IsNullID.
  generalize (hex_digits f (n / 16)). intros s. destruct s; reflexivity.
Qed.

Lemma NewObjectIDHex_not_null (n : nat) : IsNullID (NewObjectIDHex n) = false.
Proof. apply hex_digits_not_null. Qed.

Section RedisMongoMore.
  Context {T : Type} `{Zero T} `{Table T} `{MongoDoc T}.
  Variables prefix table idField : string.

Definition clear_keys (id : string) (indexes : Indexes) : list string :=
  UniqueStrings (app (if IsNullID id then []
                      else [MakeCacheKey prefix table (NewIndex idField id)])
                     (map (MakeCacheKey prefix table) indexes)).

Lemma ClearCache_eq (id : string) (indexes : Indexes) (m : mstate T) :
  RedisMongo.ClearCache prefix table idField id indexes m
    = (with_red m (Redis.del (clear_keys id indexes) (m_red m)), None).
Proof. reflexivity. Qed.

Lemma clear_keys_elem (id : string) (indexes : Indexes) (k : string) :
  k ∈ clear_keys id indexes <->
  (IsNullID id = false /\ k = MakeCacheKey prefix table (NewIndex idField id))
  \/ (exists idx, idx ∈ indexes /\ k = MakeCacheKey prefix table idx).
Proof.
  unfold clear_keys. rewrite UniqueStrings_elem, elem_of_app.
  rewrite (list_elem_of_In (map _ _) k), in_map_iff.
  destruct (IsNullID id).
  - rewrite elem_of_nil. split.
    + intros [[]|(idx & <- & Hi)]. right. exists idx.
      split; [now apply list_elem_of_In|reflexivity].
    + intros [[Hf _]|(idx & Hi & ->)]; [discriminate|].
      right. exists idx. split; [reflexivity|now apply list_elem_of_In].
  - rewrite list_elem_of_singleton. split.
    + intros [->|(idx & <- & Hi)]; [left; auto|].
      right. exists idx. split; [now apply list_elem_of_In|reflexivity].
    + intros [[_ ->]|(idx & Hi & ->)]; [now left|].
      right. exists idx. split; [reflexivity|now apply list_elem_of_In].
Qed.

(** The fold of [Delete] over the listed documents: each step is one
    [ClearCache], which leaves the collection alone, keeps absent keys
    absent and removes the keys of the document it is given. *)
Definition clear_all (objs : list T) (m : mstate T) : mstate T :=
  foldl (fun m v => fst (RedisMongo.ClearCache prefix table idField
                           (GetID v) (ListIndexes v) m)) m objs.

Lemma clear_all_coll (objs : list T) (m : mstate T) :
  m_coll (clear_all objs m) = m_coll m.
Proof.
  unfold clear_all. revert m. induction objs as [|o objs IH]; intros m;
    simpl; [reflexivity|]. now rewrite IH.
Qed.

Lemma clear_all_None (objs : list T) (m : mstate T) (k : string) :
  kv (m_red m) !! k = None -> kv (m_red (clear_all objs m)) !! k = None.
Proof.
  unfold clear_all. revert m. induction objs as [|o objs IH]; intros m Hk;
    cbn [foldl]; [exact Hk|].
  apply IH. rewrite ClearCache_eq. simpl. now apply foldl_delete_None.
Qed.

Lemma clear_all_in (objs : list T) (m : mstate T) (o : T) (k : string) :
  o ∈ objs -> k ∈ clear_keys (GetID o) (ListIndexes o) ->
  kv (m_red (clear_all objs m)) !! k = None.
Proof.
  unfold clear_all. revert m. induction objs as [|o' objs IH]; intros m Ho Hk.
  - now apply elem_of_nil in Ho.
  - cbn [foldl]. apply elem_of_cons in Ho as [->|Ho]; [|now apply IH].
    apply clear_all_None. rewrite ClearCache_eq. simpl.
    now apply foldl_delete_in.
Qed.

  (** [RedisMongo.Create] on an entity with a null ID, when [idField]
      names its settable string ID field: the entity gets the fresh
      ObjectID hex string as its ID (which is not null), is inserted under
      it, the counter advances, and the primary key and every index key of
      the new entity are deleted from Redis in one [DEL] of distinct
      keys. *)
Theorem Create_null_id_assigns (t t' : T) (m : mstate T)
      (Hnull : IsNullID (GetID t) = true)
      (Hset : SetField t idField (NewObjectIDHex (m_oid m)) = Returned t')
      (Hget : GetID t' = NewObjectIDHex (m_oid m))
      (Hins : m_fail m OpInsert = None)
      (Hfree : m_coll m !! NewObjectIDHex (m_oid m) = None) :
    exists ks,
      RedisMongo.Create prefix table idField (Some t) m
        = Returned (mkM (<[NewObjectIDHex (m_oid m) := t']> (m_coll m))
                        (m_fail m) (S (m_oid m)) (Redis.del ks (m_red m)),
                    Some t', None)
      /\ NoDup ks
      /\ (forall k, k ∈ ks <->
            k = MakeCacheKey prefix table (NewIndex idField (NewObjectIDHex (m_oid m)))
            \/ (exists idx, idx ∈ ListIndexes t' /\ k = MakeCacheKey prefix table idx)).
Proof.
  unfold RedisMongo.Create, RedisMongo.AssignID. rewrite Hnull, Hset.
  unfold Mongo.InsertOne. cbn [m_fail m_coll m_oid m_red].
  rewrite Hins, Hget, Hfree. cbn [m_coll m_fail m_oid m_red with_coll].
  rewrite ClearCache_eq.
  eexists. split; [reflexivity|]. split; [apply UniqueStrings_NoDup|].
  intros k. rewrite clear_keys_elem, NewObjectIDHex_not_null.
  split; [intros [[_ ->]|?]; auto|intros [->|?]; auto].
Qed.

  (** [RedisMongo.Create] on an entity with a null ID when [idField] does
      not name a settable string field: [reflect]'s [SetString] panics, so
      the call panics before any write to Mongo or Redis. *)
Theorem Create_null_id_bad_field_panics (t : T) (m : mstate T) (msg : string)
      (Hnull : IsNullID (GetID t) = true)
      (Hset : SetField t idField (NewObjectIDHex (m_oid m)) = Panicked msg) :
    RedisMongo.Create prefix table idField (Some t) m = Panicked msg
    /\ RedisMongo.Save prefix table idField (Some t) m = Panicked msg.
Proof.
  unfold RedisMongo.Save. rewrite Hnull.
  unfold RedisMongo.Create, RedisMongo.AssignID. rewrite Hnull, Hset. auto.
Qed.

  (** [RedisMongo.Delete] with a non-empty ID list and no driver faults:
      every listed ID is gone from the collection, the count is the number
      of distinct listed IDs that were present, and for each deleted
      document (whose stored ID is its key and is not null) its primary key
      and all its index keys are absent from Redis afterwards. *)
Theorem Delete_removes_and_invalidates (ids : list string) (m : mstate T)
      (Hne : ids <> [])
      (Hf : m_fail m OpFind = None) (Hd : m_fail m OpDelete = None)
      (Hids : forall id d, m_coll m !! id = Some d ->
                           GetID d = id /\ IsNullID id = false) :
    snd (RedisMongo.Delete prefix table idField ids m)
      = (Z.of_nat (length (filter (fun id => is_Some (m_coll m !! id))
                                  (remove_dups ids))), None)
    /\ (forall id, id ∈ ids ->
          m_coll (fst (RedisMongo.Delete prefix table idField ids m)) !! id = None)
    /\ (forall id d, id ∈ ids -> m_coll m !! id = Some d ->
          kv (m_red (fst (RedisMongo.Delete prefix table idField ids m)))
             !! MakeCacheKey prefix table (NewIndex idField id) = None
          /\ forall idx, idx ∈ ListIndexes d ->
               kv (m_red (fst (RedisMongo.Delete prefix table idField ids m)))
                  !! MakeCacheKey prefix table idx = None).
Proof.
  assert (Hdel : RedisMongo.Delete prefix table idField ids m
    = (clear_all (omap (fun id => m_coll m !! id) (remove_dups ids))
         (with_coll m (foldl (fun c id => delete id c) (m_coll m) ids)),
       (Z.of_nat (length (filter (fun id => is_Some (m_coll m !! id))
                                 (remove_dups ids))), None))).
  { unfold RedisMongo.Delete. destruct ids as [|i ids]; [congruence|].
    unfold RedisMongo.List, Mongo.Find, Mongo.DeleteMany. rewrite Hf, Hd.
    reflexivity. }
  rewrite Hdel. cbn [fst snd]. split; [reflexivity|]. split.
  - intros id Hin. rewrite clear_all_coll. simpl. now apply foldl_delete_in.
  - intros id d Hin Hl.
    destruct (Hids id d Hl) as [Hgid Hnn].
    assert (Ho : d ∈ omap (fun id => m_coll m !! id) (remove_dups ids)).
    { apply list_elem_of_omap. exists id. split; [|exact Hl].
      now apply elem_of_remove_dups. }
    split.
    + apply (clear_all_in _ _ d); [exact Ho|].
      apply clear_keys_elem. left. now rewrite Hgid.
    + intros idx Hidx. apply (clear_all_in _ _ d); [exact Ho|].
      apply clear_keys_elem. right. now exists idx.
Qed.

  (** [RedisMongo.Save] on an entity with a non-null ID whose lookup fails
      with a driver error other than "no documents" reports success: it
      returns a nil error and writes nothing, neither to Mongo nor to
      Redis. *)
Theorem Save_swallows_read_error (t : T) (m : mstate T) (e : err)
      (Hid : IsNullID (GetID t) = false)
      (Hf : m_fail m OpFind = Some e) (He : e <> ErrNoDocuments) :
    RedisMongo.Save prefix table idField (Some t) m = Returned (m, Some t, None).
Proof.
  unfold RedisMongo.Save. rewrite Hid.
  unfold RedisMongo.Get, Mongo.FindOne. rewrite Hf.
  destruct (String.eqb_spec e ErrNoDocuments); [contradiction|reflexivity].
Qed.

  (** [RedisMongo.Update] of a non-null ID that has no document, with the
      values given as a [map[string]interface{}] ([UVMap]) and no faults on
      the driver's find and update calls: it reports [(0, nil)] and leaves
      the collection alone,
      yet still sends a [DEL] -- of the keys derived from the zero entity
      that [Get] returned: its primary key when its ID is not null, and its
      index keys. *)
Theorem Update_missing_doc (id : string) (vs : list (string * string))
      (m : mstate T)
      (Hid : IsNullID id = false)
      (Hf : m_fail m OpFind = None) (Hu : m_fail m OpUpdate = None)
      (Hmiss : m_coll m !! id = None) :
    exists ks,
      RedisMongo.Update prefix table idField id (UVMap vs) m
        = (with_red m (Redis.del ks (m_red m)), (0%Z, None))
      /\ NoDup ks
      /\ (forall k, k ∈ ks <->
            (IsNullID (GetID zero) = false
             /\ k = MakeCacheKey prefix table (NewIndex idField (GetID zero)))
            \/ (exists idx, idx ∈ ListIndexes zero
                            /\ k = MakeCacheKey prefix table idx)).
Proof.
  assert (Hg : RedisMongo.Get id m = (zero, false, None)).
  { unfold RedisMongo.Get, Mongo.FindOne. rewrite Hf, Hmiss. reflexivity. }
  unfold RedisMongo.Update. rewrite Hid, Hg.
  unfold Mongo.UpdateOne. rewrite Hu, Hmiss, Hg.
  rewrite ClearCache_eq. unfold Merge.
  exists (clear_keys (GetID zero) (app (ListIndexes zero) (ListIndexes zero))).
  split; [reflexivity|]. split; [apply UniqueStrings_NoDup|].
  intros k. rewrite clear_keys_elem.
  split.
  - intros [?|(idx & Hi & ->)]; [now left|].
    right. exists idx. split; [|reflexivity].
    apply elem_of_app in Hi as [?|?]; assumption.
  - intros [?|(idx & Hi & ->)]; [now left|].
    right. exists idx. split; [|reflexivity]. apply elem_of_app. now left.
Qed.
End RedisMongoMore.

Definition users_store : mstate user :=
  mkM {["a" := mkUser "a" "bob"]} (fun _ => None) 0 empty_redis.

Lemma Create_null_id_assigns_witness :
  exists ks,
    RedisMongo.Create "app" "users" "ID" (Some (mkUser "" "eve")) users_store
      = Returned (mkM (<[NewObjectIDHex 0 := mkUser (NewObjectIDHex 0) "eve"]>
                         (m_coll users_store))
                      (m_fail users_store) 1 (Redis.del ks (m_red users_store)),
                  Some (mkUser (NewObjectIDHex 0) "eve"), None)
    /\ NoDup ks
    /\ (forall k, k ∈ ks <->
          k = MakeCacheKey "app" "users" (NewIndex "ID" (NewObjectIDHex 0))
          \/ (exists idx, idx ∈ ListIndexes (mkUser (NewObjectIDHex 0) "eve")
                          /\ k = MakeCacheKey "app" "users" idx)).
Proof.
  refine (Create_null_id_assigns "app" "users" "ID" (mkUser "" "eve")
            (mkUser (NewObjectIDHex 0) "eve") users_store _ _ _ _ _);
    vm_compute; reflexivity.
Defined.

Lemma Create_null_id_bad_field_panics_witness :
  RedisMongo.Create "app" "users" "_id" (Some (mkUser "" "eve")) users_store
    = Panicked "reflect: call of reflect.Value.SetString on zero Value"
  /\ RedisMongo.Save "app" "users" "_id" (Some (mkUser "" "eve")) users_store
    = Panicked "reflect: call of reflect.Value.SetString on zero Value".
Proof.
  apply (Create_null_id_bad_field_panics "app" "users" "_id" (mkUser "" "eve")
           users_store); vm_compute; reflexivity.
Defined.

Lemma Delete_removes_and_invalidates_witness :
  snd (RedisMongo.Delete "app" "users" "_id" ["a"; "b"] users_store)
    = (Z.of_nat (length (filter (fun id => is_Some (m_coll users_store !! id))
                                (remove_dups ["a"; "b"]))), None)
  /\ (forall id, id ∈ ["a"; "b"] ->
        m_coll (fst (RedisMongo.Delete "app" "users" "_id" ["a"; "b"] users_store))
          !! id = None)
  /\ (forall id d, id ∈ ["a"; "b"] -> m_coll users_store !! id = Some d ->
        kv (m_red (fst (RedisMongo.Delete "app" "users" "_id" ["a"; "b"] users_store)))
           !! MakeCacheKey "app" "users" (NewIndex "_id" id) = None
        /\ forall idx, idx ∈ ListIndexes d ->
             kv (m_red (fst (RedisMongo.Delete "app" "users" "_id" ["a"; "b"] users_store)))
                !! MakeCacheKey "app" "users" idx = None).
Proof.
  apply (Delete_removes_and_invalidates "app" "users" "_id" ["a"; "b"] users_store).
  - discriminate.
  - reflexivity.
  - reflexivity.
  - intros id d Hl. unfold users_store in Hl. cbn [m_coll] in Hl.
    apply lookup_singleton_Some in Hl as [<- <-]. split; reflexivity.
Defined.

Lemma Save_swallows_read_error_witness :
  RedisMongo.Save "app" "users" "_id" (Some (mkUser "a" "bob"))
    (mkM (m_coll users_store) (fun _ => Some "connection reset") 0 empty_redis)
  = Returned (mkM (m_coll users_store) (fun _ => Some "connection reset") 0 empty_redis,
              Some (mkUser "a" "bob"), None).
Proof.
  apply (Save_swallows_read_error "app" "users" "_id" (mkUser "a" "bob")
           _ "connection reset").
  - reflexivity.
  - reflexivity.
  - discriminate.
Defined.

Lemma Update_missing_doc_witness :
  exists ks,
    RedisMongo.Update "app" "users" "_id" "zz" (UVMap [("name", "x")]) users_store
      = (with_red users_store (Redis.del ks (m_red users_store)), (0%Z, None))
    /\ NoDup ks
    /\ (forall k, k ∈ ks <->
          (IsNullID (GetID (zero : user)) = false
           /\ k = MakeCacheKey "app" "users" (NewIndex "_id" (GetID (zero : user))))
          \/ (exists idx, idx ∈ ListIndexes (zero : user)
                          /\ k = MakeCacheKey "app" "users" idx)).
Proof.
  apply (Update_missing_doc "app" "users" "_id" "zz" [("name", "x")] users_store);
    reflexivity.
Defined.

(** *** Gorm adapter *)

Section GormProofs.
  Context {T : Type} `{Zero T} `{Table T}.
  Variable FirstWhere : string -> gdb T -> T * option err.
  Variable Updates : T -> list (string * string) -> T * Z.

  (** [Gorm.Save] returns a read error of [First] other than "record not
      found" and writes nothing (where [RedisMongo.Save] reports success). *)
Theorem Gorm_Save_read_error (r : T) (g : gdb T) (e : err)
      (Hf : g_fail g GFirst = Some e) (He : e <> ErrRecordNotFound) :
    Gorm.Save FirstWhere r g = (g, Some e).
Proof.
  unfold Gorm.Save, Gorm.Get, Gorm.First. rewrite Hf.
  destruct (String.eqb_spec e ErrRecordNotFound); [contradiction|reflexivity].
Qed.

  (** [Gorm.Update] of a numeric ID (one [strconv.Atoi] accepts, which
      gorm looks up as a primary key) with no row returns [(0, nil)] and
      issues no write, whatever [Updates] would have done. *)
Theorem Gorm_Update_missing (id : string) (vs : list (string * string)) (g : gdb T)
      (Hnum : Atoi id <> None)
      (Hf : g_fail g GFirst = None) (Hmiss : g_rows g !! id = None) :
    Gorm.Update FirstWhere Updates id vs g = (g, (0%Z, None)).
Proof.
  unfold Gorm.Update, Gorm.Get, Gorm.First. rewrite Hf.
  destruct (Atoi id); [|contradiction]. rewrite Hmiss. reflexivity.
Qed.

  (** [Gorm.Save] then [Gorm.Get]: for a row whose ID is numeric, with no
      faults on [First], [Create] and [Save], saving it -- new or existing --
      makes [Get] of its ID return it as found, and leaves every other row
      as it was. *)
Theorem Gorm_Save_Get (r : T) (g : gdb T)
      (Hnum : Atoi (GetID r) <> None)
      (Hf : g_fail g GFirst = None) (Hc : g_fail g GCreate = None)
      (Hs : g_fail g GSave = None) :
    snd (Gorm.Save FirstWhere r g) = None
    /\ Gorm.Get FirstWhere (GetID r) (fst (Gorm.Save FirstWhere r g)) = (r, true, None)
    /\ forall id, id <> GetID r ->
         g_rows (fst (Gorm.Save FirstWhere r g)) !! id = g_rows g !! id.
Proof.
  destruct (Atoi (GetID r)) as [v|] eqn:Ha; [|contradiction].
  assert (Hsave : Gorm.Save FirstWhere r g
                  = (with_rows g (<[GetID r := r]> (g_rows g)), None)).
  { unfold Gorm.Save, Gorm.Get, Gorm.First. rewrite Hf, Ha.
    destruct (g_rows g !! GetID r) eqn:Hl; simpl.
    - now rewrite Hs.
    - unfold Gorm.Create. now rewrite Hc, Hl. }
  rewrite Hsave. cbn [fst snd]. split; [reflexivity|]. split.
  - unfold Gorm.Get, Gorm.First. simpl. rewrite Hf, Ha, lookup_insert_eq. reflexivity.
  - intros id Hne. simpl. now apply lookup_insert_ne.
Qed.

  (** [Gorm.Get] of an ID that is neither a number nor empty does not look
      the ID up as a key: its answer is that of the raw SQL condition
      [WHERE id], whatever the table holds under that key.  In particular
      a database error such as an unknown column is returned as the error
      of [Get], and of [Update] and [Save] after it. *)
Theorem Gorm_Get_raw_sql (id : string) (g : gdb T) (r : T) (e : err) (vs : list (string * string))
      (Hnum : Atoi id = None) (Hf : g_fail g GFirst = None)
      (Hw : FirstWhere id g = (r, Some e)) (He : e <> ErrRecordNotFound) :
    Gorm.Get FirstWhere id g = (r, false, Some e)
    /\ Gorm.Update FirstWhere Updates id vs g = (g, (0%Z, Some e))
    /\ forall row, GetID row = id -> Gorm.Save FirstWhere row g = (g, Some e).
Proof.
  assert (Hg : Gorm.Get FirstWhere id g = (r, false, Some e)).
  { unfold Gorm.Get, Gorm.First. rewrite Hf, Hnum, Hw.
    destruct (String.eqb_spec e ErrRecordNotFound); [contradiction|reflexivity]. }
  split; [exact Hg|]. split.
  - unfold Gorm.Update. now rewrite Hg.
  - intros row Hrow. unfold Gorm.Save. now rewrite Hrow, Hg.
Qed.

End GormProofs.

(** A table with one row, [{ID: "1", Name: "bob"}]; a SQL database where the
    column [name] exists and any other bare word is an unknown column. *)
Definition users_table : gdb user :=
  mkG {["1" := mkUser "1" "bob"]} (fun _ => None).

Definition users_where (cond : string) (g : gdb user) : user * option err :=
  (mkUser "" "", Some ("no such column: " ++ cond)).

Definition users_updates (u : user) (vals : list (string * string)) : user * Z :=
  (apply_name vals u, 1%Z).

Lemma Gorm_Save_read_error_witness :
  Gorm.Save users_where (mkUser "1" "carl")
    (mkG (g_rows users_table) (fun _ => Some "driver: bad connection"))
  = (mkG (g_rows users_table) (fun _ => Some "driver: bad connection"),
     Some "driver: bad connection").
Proof.
  apply (Gorm_Save_read_error users_where (mkUser "1" "carl") _ "driver: bad connection").
  - reflexivity.
  - discriminate.
Defined.

Lemma Gorm_Update_missing_witness :
  Gorm.Update users_where users_updates "7" [("name", "x")] users_table
  = (users_table, (0%Z, None)).
Proof.
  apply Gorm_Update_missing; [discriminate|reflexivity|reflexivity].
Defined.

Lemma Gorm_Save_Get_witness :
  snd (Gorm.Save users_where (mkUser "2" "dan") users_table) = None
  /\ Gorm.Get users_where (GetID (mkUser "2" "dan"))
       (fst (Gorm.Save users_where (mkUser "2" "dan") users_table))
     = (mkUser "2" "dan", true, None)
  /\ forall id, id <> GetID (mkUser "2" "dan") ->
       g_rows (fst (Gorm.Save users_where (mkUser "2" "dan") users_table)) !! id
       = g_rows users_table !! id.
Proof.
  apply Gorm_Save_Get; [discriminate|reflexivity|reflexivity|reflexivity].
Defined.

Lemma Gorm_Get_raw_sql_witness :
  Gorm.Get users_where "zz" users_table = (mkUser "" "", false, Some "no such column: zz")
  /\ Gorm.Update users_where users_updates "zz" [("name", "x")] users_table
     = (users_table, (0%Z, Some "no such column: zz"))
  /\ forall row, GetID row = "zz" ->
       Gorm.Save users_where row users_table = (users_table, Some "no such column: zz").
Proof.
  apply Gorm_Get_raw_sql; [reflexivity|reflexivity|reflexivity|discriminate].
Defined.

